(** * A shallow embedding of CV_Creator (generate.py, tailor_cv.py,
      update_from_linkedin.py) and the properties of its cleanup, prompt
      assembly, JSON coercion, file naming and exit codes. *)

From Stdlib Require Import List ZArith Bool Lia String Ascii Permutation.
Import ListNotations.
Set Warnings "-register-all".
Open Scope Z_scope.

(** ** Python strings

    A Python [str] is a sequence of Unicode code points, modelled as
    [list Z].  [lit] turns an ASCII Rocq string literal into one. *)

Definition pystr := list Z.

Definition lit (s : string) : pystr :=
  map (fun a => Z.of_nat (nat_of_ascii a)) (list_ascii_of_string s).

Fixpoint str_eqb (a b : pystr) : bool :=
  match a, b with
  | [], [] => true
  | x :: a', y :: b' => (x =? y) && str_eqb a' b'
  | _, _ => false
  end.

(** [str.isspace] for one code point (the characters Python's [str.strip()]
    removes when called without argument). *)
Definition py_isspace (c : Z) : bool :=
  ((9 <=? c) && (c <=? 13)) || ((28 <=? c) && (c <=? 32)) || (c =? 133)
  || (c =? 160) || (c =? 5760) || ((8192 <=? c) && (c <=? 8202))
  || (c =? 8232) || (c =? 8233) || (c =? 8239) || (c =? 8287)
  || (c =? 12288).

Fixpoint lstrip_by (drop : Z -> bool) (s : pystr) : pystr :=
  match s with
  | [] => []
  | c :: r => if drop c then lstrip_by drop r else s
  end.

Definition strip_by (drop : Z -> bool) (s : pystr) : pystr :=
  rev (lstrip_by drop (rev (lstrip_by drop s))).

(** [s.strip()] *)
Definition py_strip (s : pystr) : pystr := strip_by py_isspace s.

(** [s.strip(chars)] *)
Definition py_strip_chars (chars : pystr) (s : pystr) : pystr :=
  strip_by (fun c => existsb (Z.eqb c) chars) s.

(** ** Runs of the scripts

    A run either returns, exits through [sys.exit(code)] after printing a
    diagnostic to stderr, or stops on an uncaught exception (the interpreter
    then prints a traceback and exits with status 1). *)
Inductive outcome (A : Type) : Type :=
| Ok (a : A)
| Exit (code : Z) (stderr : pystr)
| Raise (exn : pystr).
Arguments Ok {A} a.
Arguments Exit {A} code stderr.
Arguments Raise {A} exn.

Definition bind {A B} (m : outcome A) (k : A -> outcome B) : outcome B :=
  match m with
  | Ok a => k a
  | Exit c e => Exit c e
  | Raise x => Raise x
  end.

Notation "x <- m ;; k" := (bind m (fun x => k)) (at level 61, m at next level, right associativity).


(** ** generate.py: the rendered document tree

    A paragraph as the cleanup sees it: its element identity ([p_id], the
    lxml node), its text [p.text] (the runs' text, where python-docx renders a
    [w:br] as whitespace or nothing), whether [pPr] has a [sectPr] child, and
    the [w:type] attribute of every [w:br] found by [.//w:br] ([None] when the
    attribute is absent). *)
Record paragraph := mkPara {
  p_id : nat;
  p_text : pystr;
  p_sectPr : bool;
  p_brs : list (option pystr)
}.

(** The [w:vMerge] of a cell: absent, ["restart"], or ["continue"] (also the
    meaning of a [w:vMerge] without [w:val]). *)
Inductive vmerge : Type :=
| VMergeNone
| VMergeRestart
| VMergeContinue.

(** What python-docx reads from a [w:tcPr]: [tc.grid_span] (1 when there is
    no [w:gridSpan]) and [tc.vMerge]. *)
Record tc_props := mkTc {
  grid_span : nat;
  vMerge : vmerge
}.

(** A body (or a cell) is a sequence of paragraphs and tables, in document
    order; a table is its list of [w:tr], a row its list of [w:tc], each cell
    its properties and its content.  Rows have no [w:gridBefore]. *)
Inductive block : Type :=
| BPara (p : paragraph)
| BTable (rows : list (list (tc_props * list block))).

Definition document := list block.

Definition has_section_break (p : paragraph) : bool := p_sectPr p.

Definition has_page_or_column_break (p : paragraph) : bool :=
  existsb (fun br_type =>
             match br_type with
             | Some t => str_eqb t (lit "page") || str_eqb t (lit "column")
             | None => false
             end) (p_brs p).

Definition is_effectively_empty (p : paragraph) : bool :=
  str_eqb (py_strip (p_text p)) []
  && negb (has_section_break p) && negb (has_page_or_column_break p).

(** [obj.paragraphs]: the paragraphs that are direct children. *)
Fixpoint direct_paragraphs (bs : list block) : list paragraph :=
  match bs with
  | [] => []
  | BPara p :: r => p :: direct_paragraphs r
  | BTable _ :: r => direct_paragraphs r
  end.

(** The content of a cell, changed by [h]. *)
Definition cell_map {C D : Type} (h : C -> D) (tc : tc_props * C) : tc_props * D :=
  let '(pr, c) := tc in (pr, h c).

(** [CT_Row.tc_at_grid_offset(grid_offset)]: the [w:tc] of the row that starts
    exactly at [grid_offset]; [None] is its [ValueError]. *)
Fixpoint tc_at_grid_offset {C : Type} (remaining_offset : Z) (tcs : list (tc_props * C))
  : option (tc_props * C) :=
  match tcs with
  | [] => None
  | tc :: r =>
      if remaining_offset <? 0 then None
      else if remaining_offset =? 0 then Some tc
      else tc_at_grid_offset (remaining_offset - Z.of_nat (grid_span (fst tc))) r
  end.

(** The cell [iter_tc_cells(tc)] stands for: a [vMerge="continue"] cell is
    replaced by [tc._tc_above], the cell at its grid offset in the row above,
    and so on upwards; [_tr_above] raises ValueError on the first row.
    [above] holds the rows above, the nearest first. *)
Fixpoint tc_origin {C : Type} (above : list (list (tc_props * C))) (grid_offset : Z)
    (tc : tc_props * C) : option (tc_props * C) :=
  match vMerge (fst tc) with
  | VMergeContinue =>
      match above with
      | [] => None
      | tr :: above' =>
          match tc_at_grid_offset grid_offset tr with
          | Some tc' => tc_origin above' grid_offset tc'
          | None => None
          end
      end
  | _ => Some tc
  end.

(** [_Row.cells]: for each [w:tc] of the row, its origin cell once per grid
    column the origin spans ([for _ in range(tc.grid_span): yield cell]); the
    grid offset of a [w:tc] is the sum of the spans before it. *)
Fixpoint row_cells {C : Type} (above : list (list (tc_props * C))) (grid_offset : Z)
    (tcs : list (tc_props * C)) : option (list (tc_props * C)) :=
  match tcs with
  | [] => Some []
  | tc :: r =>
      match tc_origin above grid_offset tc,
            row_cells above (grid_offset + Z.of_nat (grid_span (fst tc))) r with
      | Some o, Some cs => Some (repeat o (grid_span (fst o)) ++ cs)
      | _, _ => None
      end
  end.

(** [for row in t.rows: for cell in row.cells]: the cells of the rows [trs]
    in order, each row read with the rows above it. *)
Fixpoint table_cells {C : Type} (above trs : list (list (tc_props * C)))
  : option (list (tc_props * C)) :=
  match trs with
  | [] => Some []
  | tr :: r =>
      match row_cells above 0 tr, table_cells (tr :: above) r with
      | Some cs, Some rest => Some (cs ++ rest)
      | _, _ => None
      end
  end.

(** The concatenation of lists that were all produced. *)
Fixpoint opt_concat {A : Type} (xs : list (option (list A))) : option (list A) :=
  match xs with
  | [] => Some []
  | x :: r =>
      match x, opt_concat r with
      | Some a, Some b => Some (a ++ b)
      | _, _ => None
      end
  end.

(** The paragraphs [iter_paragraphs] yields below one table: for each cell of
    [row.cells], [yield from iter_paragraphs(cell)]; [None] is the
    ValueError of [row.cells].  The generator is drained by [list(...)], so
    the result is the whole list or the exception. *)
Fixpoint table_paragraphs (b : block) : option (list paragraph) :=
  match b with
  | BPara _ => Some []
  | BTable rows =>
      match table_cells []
              (map (map (fun '(pr, c) =>
                           (pr, option_map (app (direct_paragraphs c))
                                  (opt_concat (map table_paragraphs c))))) rows) with
      | Some cells => opt_concat (map snd cells)
      | None => None
      end
  end.

(** [iter_paragraphs(obj)]: the direct paragraphs first, then the tables. *)
Definition iter_paragraphs (bs : list block) : option (list paragraph) :=
  option_map (app (direct_paragraphs bs)) (opt_concat (map table_paragraphs bs)).

(** Every paragraph element of the tree, in document order, whether
    [row.cells] lists its cell or not. *)
Fixpoint block_paragraphs (b : block) : list paragraph :=
  match b with
  | BPara p => [p]
  | BTable rows => flat_map (flat_map (fun '(_, c) => flat_map block_paragraphs c)) rows
  end.

Definition tree_paragraphs (d : document) : list paragraph := flat_map block_paragraphs d.

(** Keep the paragraphs satisfying [keep], wherever they are in the tree. *)
Fixpoint filter_block (keep : paragraph -> bool) (b : block) : list block :=
  match b with
  | BPara p => if keep p then [b] else []
  | BTable rows =>
      [BTable (map (map (fun '(pr, c) => (pr, flat_map (filter_block keep) c))) rows)]
  end.

(** [delete_paragraph(p)]: [p._element.getparent().remove(p._element)].  The
    element is the one with [p]'s identity; once it has been removed,
    [getparent()] is [None] and the call raises AttributeError. *)
Definition delete_paragraph (p : paragraph) (d : document) : outcome document :=
  if existsb (fun q => Nat.eqb (p_id q) (p_id p)) (tree_paragraphs d)
  then Ok (flat_map (filter_block (fun q => negb (Nat.eqb (p_id q) (p_id p)))) d)
  else Raise (lit "AttributeError").

(** [for p in ps: if is_effectively_empty(p): delete_paragraph(p)] *)
Fixpoint clean_loop (ps : list paragraph) (d : document) : outcome document :=
  match ps with
  | [] => Ok d
  | p :: r =>
      if is_effectively_empty p then (d' <- delete_paragraph p d;; clean_loop r d')
      else clean_loop r d
  end.

(** The cleanup: [for p in list(iter_paragraphs(docx_doc)): ...]. *)
Definition clean (d : document) : outcome document :=
  match iter_paragraphs d with
  | Some ps => clean_loop ps d
  | None => Raise (lit "ValueError")
  end.

(** ** Python helpers *)

Fixpoint is_prefix (p s : pystr) : bool :=
  match p, s with
  | [], _ => true
  | x :: p', y :: s' => (x =? y) && is_prefix p' s'
  | _ :: _, [] => false
  end.

(** [needle in s] *)
Fixpoint py_contains (needle s : pystr) : bool :=
  is_prefix needle s || match s with [] => false | _ :: r => py_contains needle r end.

Fixpoint replace_scan (fuel : nat) (old new s : pystr) : pystr :=
  match fuel with
  | O => s
  | S f =>
      match s with
      | [] => []
      | c :: r =>
          if is_prefix old s then new ++ replace_scan f old new (skipn (List.length old) s)
          else c :: replace_scan f old new r
      end
  end.

(** [s.replace(old, new)]: every non-overlapping occurrence, left to right;
    the inserted text is not scanned again. *)
Definition py_replace (old new s : pystr) : pystr :=
  match old with
  | [] => new ++ flat_map (fun c => c :: new) s
  | _ :: _ => replace_scan (S (List.length s)) old new s
  end.

Fixpoint py_join (sep : pystr) (xs : list pystr) : pystr :=
  match xs with
  | [] => []
  | [x] => x
  | x :: r => x ++ sep ++ py_join sep r
  end.

(** What [print(a, b, ..., file=sys.stderr)] writes. *)
Definition py_print (args : list pystr) : pystr := py_join [32] args ++ [10].

(** ** json.loads (the C scanner of CPython's [_json] module, strict mode)

    Numbers keep their kind: an integer literal becomes its value, a literal
    with a fraction or an exponent (and NaN, Infinity, -Infinity) is kept as
    its lexeme, floating point values being outside this model. *)
Inductive jvalue : Type :=
| JNull
| JBool (b : bool)
| JInt (n : Z)
| JFloat (lexeme : pystr)
| JStr (s : pystr)
| JArr (xs : list jvalue)
| JObj (kvs : list (pystr * jvalue)).

Definition json_ws (c : Z) : bool := (c =? 32) || (c =? 9) || (c =? 10) || (c =? 13).

Definition skip_ws (s : pystr) : pystr := lstrip_by json_ws s.

Definition is_digit (c : Z) : bool := (48 <=? c) && (c <=? 57).

Definition hex_val (c : Z) : option Z :=
  if is_digit c then Some (c - 48)
  else if (97 <=? c) && (c <=? 102) then Some (c - 87)
  else if (65 <=? c) && (c <=? 70) then Some (c - 55)
  else None.

Definition hex4 (s : pystr) : option (Z * pystr) :=
  match s with
  | a :: b :: c :: d :: r =>
      match hex_val a, hex_val b, hex_val c, hex_val d with
      | Some x, Some y, Some z, Some w => Some (x * 4096 + y * 256 + z * 16 + w, r)
      | _, _, _, _ => None
      end
  | _ => None
  end.

Definition simple_escape (e : Z) : option Z :=
  if e =? 34 then Some 34 else if e =? 92 then Some 92 else if e =? 47 then Some 47
  else if e =? 98 then Some 8 else if e =? 102 then Some 12 else if e =? 110 then Some 10
  else if e =? 114 then Some 13 else if e =? 116 then Some 9 else None.

(** [scanstring]: [s] starts after the opening quote; returns the decoded
    string and the text after the closing quote. *)
Fixpoint scanstring (fuel : nat) (acc : pystr) (s : pystr) : option (pystr * pystr) :=
  match fuel with
  | O => None
  | S f =>
      match s with
      | [] => None
      | c :: r =>
          if c =? 34 then Some (rev acc, r)
          else if c =? 92 then
            match r with
            | [] => None
            | e :: r' =>
                if e =? 117 then
                  match hex4 r' with
                  | None => None
                  | Some (u, r'') =>
                      if (55296 <=? u) && (u <=? 56319) then
                        match r'' with
                        | 92 :: 117 :: r3 =>
                            match hex4 r3 with
                            | None => None
                            | Some (u2, r4) =>
                                if (56320 <=? u2) && (u2 <=? 57343)
                                then scanstring f ((65536 + (u - 55296) * 1024 + (u2 - 56320)) :: acc) r4
                                else scanstring f (u :: acc) r''
                            end
                        | _ => scanstring f (u :: acc) r''
                        end
                      else scanstring f (u :: acc) r''
                  end
                else
                  match simple_escape e with
                  | Some c' => scanstring f (c' :: acc) r'
                  | None => None
                  end
            end
          else if c <=? 31 then None
          else scanstring f (c :: acc) r
      end
  end.

Fixpoint take_digits (s : pystr) : pystr * pystr :=
  match s with
  | c :: r => if is_digit c then let '(ds, r') := take_digits r in (c :: ds, r') else ([], s)
  | [] => ([], [])
  end.

Definition digits_value (ds : pystr) : Z := fold_left (fun n c => n * 10 + (c - 48)) ds 0.

(** The interpreter limits [json.loads] runs into: the integer string
    conversion limit [sys.get_int_max_str_digits()] (4300 by default, 0 for
    none; CPython before 3.10.7 has none), and the number of nested JSON
    containers the C scanner enters before [Py_EnterRecursiveCall] raises
    RecursionError (it depends on the recursion limit and on how deep the
    call is made). *)
Record py_limits := mkLimits {
  int_max_str_digits : Z;
  json_depth : nat
}.

(** What the scanner returns: a value and the text after it, a failure to
    match (a [StopIteration] or a [JSONDecodeError] raised inside, both
    reported by [json.loads] as [JSONDecodeError]), or another exception. *)
Inductive scan_result : Type :=
| Scanned (v : jvalue) (rest : pystr)
| NoMatch
| ScanRaise (exn : pystr).

(** [_match_number_unicode]: an integer literal goes through
    [PyLong_FromString], which raises ValueError beyond
    [int_max_str_digits] digits (the sign not counted). *)
Definition match_number (lim : py_limits) (s : pystr) : scan_result :=
  let '(sign, s1) := match s with 45 :: r => ([45], r) | _ => ([], s) end in
  let int_part :=
    match s1 with
    | c :: r =>
        if (49 <=? c) && (c <=? 57) then let '(ds, r') := take_digits r in Some (c :: ds, r')
        else if c =? 48 then Some ([48], r) else None
    | [] => None
    end in
  match int_part with
  | None => NoMatch
  | Some (ip, r1) =>
      let '(frac, r2) :=
        match r1 with
        | 46 :: d :: r => if is_digit d then let '(ds, r') := take_digits r in (46 :: d :: ds, r')
                          else ([], r1)
        | _ => ([], r1)
        end in
      let '(ex, r3) :=
        match r2 with
        | e :: r =>
            if (e =? 101) || (e =? 69) then
              let '(sg, r') := match r with
                               | x :: r0 => if (x =? 45) || (x =? 43) then ([x], r0) else ([], r)
                               | [] => ([], r)
                               end in
              let '(ds, r'') := take_digits r' in
              match ds with [] => ([], r2) | _ => (e :: sg ++ ds, r'') end
            else ([], r2)
        | [] => ([], r2)
        end in
      match frac, ex with
      | [], [] =>
          if (0 <? int_max_str_digits lim) && (int_max_str_digits lim <? Z.of_nat (List.length ip))
          then ScanRaise (lit "ValueError")
          else Scanned (JInt (match sign with [] => digits_value ip | _ => - digits_value ip end)) r3
      | _, _ => Scanned (JFloat (sign ++ ip ++ frac ++ ex)) r3
      end
  end.

(** Python's dict: a new key is appended, an existing key keeps its place and
    takes the new value. *)
Fixpoint dict_set (k : pystr) (v : jvalue) (kvs : list (pystr * jvalue)) : list (pystr * jvalue) :=
  match kvs with
  | [] => [(k, v)]
  | (k', v') :: r => if str_eqb k k' then (k', v) :: r else (k', v') :: dict_set k v r
  end.

(** [scan_once_unicode] and the object and array parsers; [depth] is the
    number of containers that may still be entered. *)
Fixpoint scan_once (lim : py_limits) (fuel depth : nat) (s : pystr) : scan_result :=
  match fuel with
  | O => NoMatch
  | S f =>
      match s with
      | [] => NoMatch
      | c :: r =>
          if c =? 34 then
            match scanstring (S (List.length r)) [] r with
            | Some (str, r') => Scanned (JStr str) r'
            | None => NoMatch
            end
          else if c =? 123 then
            match depth with
            | O => ScanRaise (lit "RecursionError")
            | S depth' =>
                match skip_ws r with
                | 125 :: r' => Scanned (JObj []) r'
                | r' => parse_object lim f depth' [] r'
                end
            end
          else if c =? 91 then
            match depth with
            | O => ScanRaise (lit "RecursionError")
            | S depth' =>
                match skip_ws r with
                | 93 :: r' => Scanned (JArr []) r'
                | r' => parse_array lim f depth' [] r'
                end
            end
          else if is_prefix (lit "null") s then Scanned JNull (skipn 4 s)
          else if is_prefix (lit "true") s then Scanned (JBool true) (skipn 4 s)
          else if is_prefix (lit "false") s then Scanned (JBool false) (skipn 5 s)
          else if is_prefix (lit "NaN") s then Scanned (JFloat (lit "NaN")) (skipn 3 s)
          else if is_prefix (lit "Infinity") s then Scanned (JFloat (lit "Infinity")) (skipn 8 s)
          else if is_prefix (lit "-Infinity") s then Scanned (JFloat (lit "-Infinity")) (skipn 9 s)
          else match_number lim s
      end
  end
(** [s] is where a property name is expected. *)
with parse_object (lim : py_limits) (fuel depth : nat) (acc : list (pystr * jvalue)) (s : pystr)
  : scan_result :=
  match fuel with
  | O => NoMatch
  | S f =>
      match s with
      | 34 :: r =>
          match scanstring (S (List.length r)) [] r with
          | None => NoMatch
          | Some (key, r1) =>
              match skip_ws r1 with
              | 58 :: r2 =>
                  match scan_once lim f depth (skip_ws r2) with
                  | Scanned v r3 =>
                      match skip_ws r3 with
                      | 125 :: r4 => Scanned (JObj (dict_set key v acc)) r4
                      | 44 :: r4 => parse_object lim f depth (dict_set key v acc) (skip_ws r4)
                      | _ => NoMatch
                      end
                  | NoMatch => NoMatch
                  | ScanRaise e => ScanRaise e
                  end
              | _ => NoMatch
              end
          end
      | _ => NoMatch
      end
  end
(** [s] is where an element is expected. *)
with parse_array (lim : py_limits) (fuel depth : nat) (acc : list jvalue) (s : pystr)
  : scan_result :=
  match fuel with
  | O => NoMatch
  | S f =>
      match scan_once lim f depth s with
      | Scanned v r =>
          match skip_ws r with
          | 93 :: r' => Scanned (JArr (rev (v :: acc))) r'
          | 44 :: r' => parse_array lim f depth (v :: acc) (skip_ws r')
          | _ => NoMatch
          end
      | NoMatch => NoMatch
      | ScanRaise e => ScanRaise e
      end
  end.

(** What [json.loads(s)] does: return a value, raise [JSONDecodeError], or
    raise another exception (ValueError, RecursionError). *)
Inductive json_result : Type :=
| Parsed (v : jvalue)
| DecodeError
| OtherError (exn : pystr).

Definition json_loads (lim : py_limits) (s : pystr) : json_result :=
  match s with
  | 65279 :: _ => DecodeError
  | _ =>
      match scan_once lim (2 * List.length s + 2)%nat (json_depth lim) (skip_ws s) with
      | Scanned v r => match skip_ws r with [] => Parsed v | _ => DecodeError end
      | NoMatch => DecodeError
      | ScanRaise e => OtherError e
      end
  end.

(** ** Running the scripts *)

(** The result of an external call: a value, or the exception it raised. *)
Inductive ext (A : Type) : Type :=
| Done (a : A)
| Fails (msg : pystr).
Arguments Done {A} a.
Arguments Fails {A} msg.

(** Truthiness of a Python [str]. *)
Definition truthy (s : pystr) : bool := match s with [] => false | _ => true end.

(** Truthiness of an [Optional[str]]. *)
Definition opt_truthy (o : option pystr) : bool :=
  match o with Some s => truthy s | None => false end.

(** An ASCII literal in which ['] stands for a double quote. *)
Definition lit_q (s : string) : pystr := map (fun c => if c =? 39 then 34 else c) (lit s).

(** *** tailor_cv.py *)

Definition marker_job := lit "===== INPUT A: JOB_SPEC =====".
Definition marker_cv := lit "===== INPUT B: CV_MD =====".
Definition placeholder_job := lit "[PASTE FULL JOB SPEC OR RECRUITER EMAIL HERE]".
Definition placeholder_cv := lit "[PASTE YOUR MARKDOWN CV HERE]".

Definition build_prompt (template job_spec cv_md : pystr) : pystr :=
  if py_contains marker_job template && py_contains marker_cv template then
    py_replace placeholder_cv cv_md (py_replace placeholder_job job_spec template)
  else
    template ++ [10; 10] ++ lit "===== INPUT A: JOB_SPEC =====" ++ [10] ++ job_spec
    ++ [10] ++ lit "===== END INPUT A =====" ++ [10; 10]
    ++ lit "===== INPUT B: CV_MD =====" ++ [10] ++ cv_md
    ++ [10] ++ lit "===== END INPUT B =====" ++ [10].

(** The environment of one run: the command-line arguments, the file system,
    the network, the [OPENAI_API_KEY] variable (after [.env] is loaded) and
    the chat completion (given the key and the prompt, the message content or
    the exception the client raised). *)
Record tailor_world := {
  tw_job_url : pystr;
  tw_prompt : pystr;
  tw_cv : pystr;
  tw_api_key : option pystr;
  tw_api_key_file : option pystr;
  tw_read_text : pystr -> ext pystr;
  tw_exists : pystr -> bool;
  tw_get : pystr -> ext pystr;
  tw_env_key : option pystr;
  tw_completion : pystr -> pystr -> ext (option pystr);
  tw_limits : py_limits
}.

Definition read_text (w : tailor_world) (path : pystr) : outcome pystr :=
  match tw_read_text w path with
  | Done s => Ok s
  | Fails e => Exit 1 (py_print [lit "Error reading " ++ path ++ lit ": " ++ e])
  end.

Definition fetch_job_spec (w : tailor_world) (url : pystr) : outcome pystr :=
  match tw_get w url with
  | Done s => Ok s
  | Fails e => Exit 2 (py_print [lit "Error fetching job spec from URL: " ++ e])
  end.

Definition load_api_key (w : tailor_world) (explicit_key key_file : option pystr) : outcome pystr :=
  let missing :=
    Exit 3 (py_print [lit "OpenAI API key not provided. Set OPENAI_API_KEY, use --api-key, or --api-key-file."]) in
  let from_env :=
    match tw_env_key w with
    | Some env_key => if truthy env_key then Ok env_key else missing
    | None => missing
    end in
  let from_file :=
    match key_file with
    | Some kf =>
        if tw_exists w kf then
          match tw_read_text w kf with
          | Done s => Ok (py_strip s)
          | Fails e => Raise e
          end
        else from_env
    | None => from_env
    end in
  match explicit_key with
  | Some k => if truthy k then Ok k else from_file
  | None => from_file
  end.

Definition call_openai (w : tailor_world) (key prompt : pystr) : outcome pystr :=
  let empty := Exit 4 (py_print [lit "Empty response from OpenAI"]) in
  match tw_completion w key prompt with
  | Fails e => Raise e
  | Done (Some content) => if truthy content then Ok (py_strip content) else empty
  | Done None => empty
  end.

(** The [try: json.loads ... except ...] block of [main]: the first parse
    only catches [json.JSONDecodeError], the second one any [Exception]. *)
Definition validate_output (lim : py_limits) (output_text : pystr) : outcome jvalue :=
  match json_loads lim output_text with
  | Parsed parsed => Ok parsed
  | OtherError e => Raise e
  | DecodeError =>
      let cleaned := py_strip_chars (lit "`") (py_strip output_text) in
      match json_loads lim cleaned with
      | Parsed parsed => Ok parsed
      | _ =>
          Exit 5 (py_print [lit "Model did not return valid JSON. Raw output:" ++ [10]; output_text])
      end
  end.

(** [Path(args.api_key_file) if args.api_key_file else None] *)
Definition api_key_file_arg (w : tailor_world) : option pystr :=
  match tw_api_key_file w with
  | Some f => if truthy f then Some f else None
  | None => None
  end.

Definition tailor_main (w : tailor_world) : outcome jvalue :=
  template <- read_text w (tw_prompt w);;
  cv_md <- read_text w (tw_cv w);;
  job_spec <- fetch_job_spec w (tw_job_url w);;
  key <- load_api_key w (tw_api_key w) (api_key_file_arg w);;
  output_text <- call_openai w key (build_prompt template job_spec cv_md);;
  validate_output (tw_limits w) output_text.

(** *** update_from_linkedin.py *)

Inductive profile_source : Type :=
| FromPdf (path : pystr)
| FromUrl (url : pystr)
| FromText (path : pystr).

Record update_world := {
  uw_source : profile_source;
  uw_env_key : option pystr;
  uw_read_text : pystr -> ext pystr;
  uw_get : pystr -> ext pystr;
  uw_which_pdftotext : bool;
  uw_pdftotext : pystr -> ext pystr;
  uw_has_pypdf : bool;
  uw_pypdf_pages : pystr -> ext (list (option pystr));
  uw_completion : pystr -> ext (option pystr);
  uw_limits : py_limits
}.

Definition read_text_file (w : update_world) (path : pystr) : outcome pystr :=
  match uw_read_text w path with
  | Done s => Ok s
  | Fails e => Exit 1 (py_print [lit "Error reading " ++ path ++ lit ": " ++ e])
  end.

Definition fetch_url (w : update_world) (url : pystr) : outcome pystr :=
  match uw_get w url with
  | Done s => Ok s
  | Fails e => Exit 2 (py_print [lit "Error fetching URL: " ++ e])
  end.

(** [sys.exit(3)] raises [SystemExit], which the [except Exception] around
    it does not catch. *)
Definition read_pdf_text (w : update_world) (path : pystr) : outcome pystr :=
  let failed e := Exit 4 (py_print [lit "Error reading PDF: " ++ e]) in
  if uw_which_pdftotext w then
    match uw_pdftotext w path with
    | Done out => Ok out
    | Fails e => failed e
    end
  else if negb (uw_has_pypdf w) then
    Exit 3 (py_print [lit "Please install 'pypdf' or install 'poppler-utils' for pdftotext."])
  else
    match uw_pypdf_pages w path with
    | Done pages =>
        Ok (py_join [10; 10] (map (fun t => match t with Some x => x | None => [] end) pages))
    | Fails e => failed e
    end.

Definition PROMPT : pystr :=
  lit "You are a resume data normalizer. Convert the provided LinkedIn profile text into STRICT JSON matching this schema: "
  ++ lit_q "{'summary': string, 'skills': [string,...], 'work_experience': ["
  ++ lit_q "{'job_title': string, 'company': string, 'location': string, 'start_date': string, 'end_date': string, "
  ++ lit_q "'company_blurb': string, 'responsibilities': [string,...], 'achievements': [string,...]}], "
  ++ lit_q "'early_career': [{'title': string, 'company': string, 'dates': string}]}. "
  ++ lit "Rules: UK English; dates: Mon YYYY or Present; 3" ++ [8211]
  ++ lit "6 responsibilities, 2" ++ [8211]
  ++ lit "5 achievements per role; no invented facts; no code fences; no trailing commas.".

Definition call_openai_to_schema (w : update_world) (text : pystr) : outcome jvalue :=
  match uw_completion w (PROMPT ++ [10; 10] ++ lit "LINKEDIN PROFILE TEXT:" ++ [10] ++ text) with
  | Fails e => Raise e
  | Done c =>
      let content := py_strip (match c with Some x => x | None => [] end) in
      match json_loads (uw_limits w) content with
      | Parsed v => Ok v
      | OtherError e => Raise e
      | DecodeError =>
          let cleaned := py_strip_chars (lit "`") (py_strip content) in
          match json_loads (uw_limits w) cleaned with
          | Parsed v => Ok v
          | DecodeError => Raise (lit "json.decoder.JSONDecodeError")
          | OtherError e => Raise e
          end
      end
  end.

Definition update_main (w : update_world) : outcome jvalue :=
  if negb (opt_truthy (uw_env_key w)) then
    Exit 5 (py_print [lit "OPENAI_API_KEY not set. Create .env or export it."])
  else
    text <- match uw_source w with
            | FromPdf p => read_pdf_text w p
            | FromUrl u => fetch_url w u
            | FromText p => read_text_file w p
            end;;
    call_openai_to_schema w text.

(** *** Concrete runs

    The limits of a default CPython 3.11: 4300 digits, and about the
    container depth the recursion limit of 1000 leaves to a shallow call. *)
Definition default_limits : py_limits := mkLimits 4300 990.

(** A run of each script in which every input is readable, the key is set and
    the model replies [reply]. *)
Definition tailor_world_replying (reply : option pystr) : tailor_world := {|
  tw_job_url := lit "https://jobs.example/1";
  tw_prompt := lit "Prompt_Template.mkd";
  tw_cv := lit "fullcv.mkd";
  tw_api_key := None;
  tw_api_key_file := None;
  tw_read_text := fun _ => Done (lit "# CV");
  tw_exists := fun _ => false;
  tw_get := fun _ => Done (lit "Job");
  tw_env_key := Some (lit "sk-test");
  tw_completion := fun _ _ => Done reply;
  tw_limits := default_limits
|}.

Definition update_world_replying (reply : option pystr) : update_world := {|
  uw_source := FromText (lit "profile.txt");
  uw_env_key := Some (lit "sk-test");
  uw_read_text := fun _ => Done (lit "Profile");
  uw_get := fun _ => Done (lit "Profile");
  uw_which_pdftotext := true;
  uw_pdftotext := fun _ => Done (lit "Profile");
  uw_has_pypdf := true;
  uw_pypdf_pages := fun _ => Done [];
  uw_completion := fun _ => Done reply;
  uw_limits := default_limits
|}.

(** The reply of C4: a JSON object in a fence with a [json] tag. *)
Definition summary_json : pystr := lit_q "{'summary':'x'}".
Definition fenced_reply : pystr := lit "```json" ++ [10] ++ summary_json ++ [10] ++ lit "```".
Definition summary_record : jvalue := JObj [(lit "summary", JStr (lit "x"))].
Definition raw_output_header : pystr := lit "Model did not return valid JSON. Raw output:" ++ [10].



(** The fixed sentinel lines of the fallback, as the spec names them. *)
Definition begin_job := lit "===== INPUT A: JOB_SPEC =====".
Definition end_job := lit "===== END INPUT A =====".
Definition begin_cv := lit "===== INPUT B: CV_MD =====".
Definition end_cv := lit "===== END INPUT B =====".

(** An input between its begin and end lines. *)
Definition delimited (b x e : pystr) : pystr := b ++ [10] ++ x ++ [10] ++ e ++ [10].

(** A tailor_cv.py run with no --api-key and no key file, in which
    [OPENAI_API_KEY] is [env]. *)
Definition tailor_world_env (env : option pystr) : tailor_world := {|
  tw_job_url := lit "https://jobs.example/1";
  tw_prompt := lit "Prompt_Template.mkd";
  tw_cv := lit "fullcv.mkd";
  tw_api_key := None;
  tw_api_key_file := None;
  tw_read_text := fun _ => Done (lit "# CV");
  tw_exists := fun _ => false;
  tw_get := fun _ => Done (lit "Job");
  tw_env_key := env;
  tw_completion := fun _ _ => Done (Some (lit "{}"));
  tw_limits := default_limits
|}.


(** *** generate.py: the output file name *)

(** A [datetime] to the second. *)
Record datetime := mkDatetime {
  dt_year : Z; dt_month : Z; dt_day : Z;
  dt_hour : Z; dt_minute : Z; dt_second : Z
}.

(** The ranges the [datetime] constructor enforces. *)
Definition datetime_ok (d : datetime) : Prop :=
  1 <= dt_month d <= 12 /\ 1 <= dt_day d <= 31 /\ 0 <= dt_hour d <= 23
  /\ 0 <= dt_minute d <= 59 /\ 0 <= dt_second d <= 59.

(** Day of era (0..146096, eras starting 1 March 0000) to year of era, month
    and day (proleptic Gregorian calendar). *)
Definition doe_to_ymd (doe : Z) : Z * Z * Z :=
  let yoe := (doe - doe / 1460 + doe / 36524 - doe / 146096) / 365 in
  let doy := doe - (365 * yoe + yoe / 4 - yoe / 100) in
  let mp := (5 * doy + 2) / 153 in
  let d := doy - (153 * mp + 2) / 5 + 1 in
  let m := if mp <? 10 then mp + 3 else mp - 9 in
  (yoe, m, d).

(** Days since 1970-01-01 to a civil date. *)
Definition civil_from_days (days : Z) : Z * Z * Z :=
  let z := days + 719468 in
  let era := z / 146097 in
  let doe := z - era * 146097 in
  let '(yoe, m, d) := doe_to_ymd doe in
  (yoe + era * 400 + (if m <=? 2 then 1 else 0), m, d).

(** [datetime.utcnow()] when the clock reads [t] seconds since the epoch. *)
Definition utcnow (t : Z) : datetime :=
  let secs := t mod 86400 in
  let '(y, m, d) := civil_from_days (t / 86400) in
  mkDatetime y m d (secs / 3600) ((secs mod 3600) / 60) (secs mod 60).

(** The time-zone database as [ZoneInfo] sees it: the conversion of an
    instant to the wall-clock time of a zone, or [None] when [zoneinfo] or
    the zone's data is unavailable (the [except Exception] branch). *)
Definition tz_database := pystr -> option (Z -> datetime).

Definition now_datetime (tzdb : tz_database) (t : Z) : datetime :=
  match tzdb (lit "Europe/London") with
  | Some to_local => to_local t
  | None => utcnow t
  end.

Fixpoint dec_fuel (fuel : nat) (n : Z) : pystr :=
  match fuel with
  | O => []
  | S f => if n <? 10 then [48 + n] else dec_fuel f (n / 10) ++ [48 + n mod 10]
  end.

(** The decimal digits of a natural number. *)
Definition dec (n : Z) : pystr := dec_fuel (S (Z.to_nat (Z.log2 n))) n.

(** Left-padding with zeros to width [w]. *)
Definition zpad (w : nat) (s : pystr) : pystr := repeat 48 (w - List.length s) ++ s.

(** [now.strftime("%Y%m%d-%H%M%S")]; [%Y] prints the year without padding
    (glibc), the other fields are padded to two digits. *)
Definition stamp (d : datetime) : pystr :=
  dec (dt_year d) ++ zpad 2 (dec (dt_month d)) ++ zpad 2 (dec (dt_day d)) ++ [45]
  ++ zpad 2 (dec (dt_hour d)) ++ zpad 2 (dec (dt_minute d)) ++ zpad 2 (dec (dt_second d)).

(** [out_file = f"CV_Customized_{stamp}.docx"] *)
Definition out_file (tzdb : tz_database) (t : Z) : pystr :=
  lit "CV_Customized_" ++ stamp (now_datetime tzdb t) ++ lit ".docx".

(** The [w]-digit decimal field of [n], digit by digit. *)
Definition fixed_digits (w : nat) (n : Z) : pystr :=
  map (fun i => 48 + (n / 10 ^ Z.of_nat (w - 1 - i)) mod 10) (seq 0 w).

(** The integers [lo], [lo + 1], ..., [n] of them. *)
Fixpoint zseq (lo : Z) (n : nat) : list Z :=
  match n with
  | O => []
  | S n' => lo :: zseq (lo + 1) n'
  end.

(** The paragraphs that survive the loop over the enumeration [l]: those whose
    identity is not that of an effectively empty paragraph of [l]. *)
Definition survives (l : list paragraph) (q : paragraph) : bool :=
  forallb (fun p => negb (is_effectively_empty p && Nat.eqb (p_id q) (p_id p))) l.



(** A plain cell. *)
Definition plain_cell (c : list block) : tc_props * list block := (mkTc 1 VMergeNone, c).

(** A concrete tree: a page-break paragraph, a blank paragraph (holding only
    a line break) three tables deep next to a text paragraph, and a blank
    paragraph carrying the section properties. *)
Definition para_page := mkPara 1 [] false [Some (lit "page")].
Definition para_sect := mkPara 2 (lit " ") true [].
Definition para_blank_deep := mkPara 3 (lit (String (ascii_of_nat 10) " ")) false [Some (lit "textWrapping")].
Definition para_text := mkPara 4 (lit "Hello") false [].
Definition doc_deep : document :=
  [BPara para_page;
   BTable [[plain_cell [BTable [[plain_cell [BTable [[plain_cell [BPara para_blank_deep; BPara para_text]]]]]]]]];
   BPara para_sect].


(** Induction on blocks through the nested table lists. *)
Section BlockInd.
Variable P : block -> Prop.
Hypothesis HPara : forall p, P (BPara p).
Hypothesis HTable : forall rows, Forall (Forall (fun tc => Forall P (snd tc))) rows -> P (BTable rows).

Fixpoint block_ind_deep (b : block) : P b :=
  match b with
  | BPara p => HPara p
  | BTable rows =>
      HTable rows
        ((fix frows (rs : list (list (tc_props * list block)))
            : Forall (Forall (fun tc => Forall P (snd tc))) rs :=
            match rs with
            | [] => Forall_nil _
            | r :: rs' =>
                Forall_cons _
                  ((fix fcells (cs : list (tc_props * list block))
                      : Forall (fun tc => Forall P (snd tc)) cs :=
                      match cs with
                      | [] => Forall_nil _
                      | (pr, c) :: cs' =>
                          Forall_cons (pr, c)
                            ((fix fblocks (l : list block) : Forall P l :=
                                match l with
                                | [] => Forall_nil _
                                | x :: l' => Forall_cons _ (block_ind_deep x) (fblocks l')
                                end) c)
                            (fcells cs')
                      end) r)
                  (frows rs')
            end) rows)
  end.
End BlockInd.


(** ** The output step of both scripts

    [json.dumps(parsed, ensure_ascii=False, separators=(",", ":"))], then
    [Path(out).write_text(..., encoding="utf-8")] and a [print] of the path. *)

(** The lower-case hexadecimal digit of [0 <= n < 16]. *)
Definition hex_digit (n : Z) : Z := if n <? 10 then 48 + n else 87 + n.

(** One character as the string encoder writes it with [ensure_ascii=False]:
    the quote, the backslash and the control characters below U+0020 are
    escaped (the short forms where JSON has one, [\u00XX] otherwise); every
    other character is copied. *)
Definition escape_char (c : Z) : pystr :=
  if c =? 34 then [92; 34]
  else if c =? 92 then [92; 92]
  else if c =? 10 then [92; 110]
  else if c =? 13 then [92; 114]
  else if c =? 9 then [92; 116]
  else if c =? 8 then [92; 98]
  else if c =? 12 then [92; 102]
  else if c <? 32 then [92; 117; 48; 48; hex_digit (c / 16); hex_digit (c mod 16)]
  else [c].

(** [py_encode_basestring] *)
Definition encode_basestring (s : pystr) : pystr := [34] ++ flat_map escape_char s ++ [34].

(** [int.__repr__] *)
Definition int_repr (n : Z) : pystr := if n <? 0 then 45 :: dec (- n) else dec n.

Section Dumps.
(** [float.__repr__] of the float a number lexeme denotes (with [NaN],
    [Infinity] and [-Infinity] for the special values): floating point is
    outside this model, so the encoder takes it as a parameter. *)
Variable float_repr : pystr -> pystr.

(** The encoder with [separators=(",", ":")] and no indentation: items are
    separated by [,] and keys from values by [:], with no whitespace. *)
Fixpoint json_dumps (v : jvalue) : pystr :=
  match v with
  | JNull => lit "null"
  | JBool true => lit "true"
  | JBool false => lit "false"
  | JInt n => int_repr n
  | JFloat l => float_repr l
  | JStr s => encode_basestring s
  | JArr xs => [91] ++ py_join [44] (map json_dumps xs) ++ [93]
  | JObj kvs =>
      [123] ++ py_join [44] (map (fun '(k, x) => encode_basestring k ++ [58] ++ json_dumps x) kvs)
      ++ [125]
  end.
End Dumps.

Definition is_surrogate (c : Z) : bool := (55296 <=? c) && (c <=? 57343).

(** [Path(out).write_text(data, encoding="utf-8")], given the result of
    opening the file for writing.  Opening creates or truncates the file;
    the UTF-8 encoder then refuses a surrogate code point before anything is
    written, which leaves the file empty.  Returns the new contents of the
    file (as code points; [None] when it was not touched) and the outcome. *)
Definition write_text (opened : ext unit) (data : pystr) : option pystr * outcome unit :=
  match opened with
  | Fails e => (None, Raise e)
  | Done _ =>
      if existsb is_surrogate data then (Some [], Raise (lit "UnicodeEncodeError"))
      else (Some data, Ok tt)
  end.

(** The whole of tailor_cv.py's [main]: after the validation the parsed
    value is written to [--out] ([out]) and [print(args.out)] writes the path
    to stdout, the value of the outcome. *)
Definition tailor_run (float_repr : pystr -> pystr) (w : tailor_world) (out : pystr)
    (opened : ext unit) : option pystr * outcome pystr :=
  match tailor_main w with
  | Ok parsed =>
      let '(file, r) := write_text opened (json_dumps float_repr parsed) in
      (file, bind r (fun _ => Ok (py_print [out])))
  | Exit c e => (None, Exit c e)
  | Raise x => (None, Raise x)
  end.

(** [s.split(sep)] for a one-character separator. *)
Fixpoint split_on (sep : Z) (s : pystr) : list pystr :=
  match s with
  | [] => [[]]
  | c :: r =>
      if c =? sep then [] :: split_on sep r
      else match split_on sep r with
           | x :: xs => (c :: x) :: xs
           | [] => [[c]]
           end
  end.

(** [str(Path(p))] on POSIX: [splitroot] keeps one leading slash, or two
    when there are exactly two; the rest is split on [/], and empty and [.]
    parts are dropped; an empty result prints as [.]. *)
Definition path_str (p : pystr) : pystr :=
  let '(root, rel) :=
    match p with
    | 47 :: 47 :: r =>
        match r with
        | 47 :: _ => ([47], 47 :: r)
        | _ => ([47; 47], r)
        end
    | 47 :: r => ([47], r)
    | _ => ([], p)
    end in
  let parts := filter (fun x => truthy x && negb (str_eqb x [46])) (split_on 47 rel) in
  match root ++ py_join [47] parts with
  | [] => [46]
  | s => s
  end.

(** The whole of update_from_linkedin.py's [main]: the value is written to
    [--out] and [print(str(out_path))] writes the normalised path. *)
Definition update_run (float_repr : pystr -> pystr) (w : update_world) (out : pystr)
    (opened : ext unit) : option pystr * outcome pystr :=
  match update_main w with
  | Ok data =>
      let '(file, r) := write_text opened (json_dumps float_repr data) in
      (file, bind r (fun _ => Ok (py_print [path_str out])))
  | Exit c e => (None, Exit c e)
  | Raise x => (None, Raise x)
  end.

(** *** Well-formed values *)

(** A Python [str] holds code points 0..0x10FFFF. *)
Definition code_point_ok (c : Z) : bool := (0 <=? c) && (c <=? 1114111).

Definition str_ok (s : pystr) : bool := forallb code_point_ok s.

Fixpoint keys_nodup (ks : list pystr) : bool :=
  match ks with
  | [] => true
  | k :: r => negb (existsb (str_eqb k) r) && keys_nodup r
  end.

(** The values a Python program can hold: strings of code points and
    dictionaries with distinct keys. *)
Fixpoint json_wf (v : jvalue) : bool :=
  match v with
  | JStr s => str_ok s
  | JArr xs => forallb json_wf xs
  | JObj kvs =>
      keys_nodup (map fst kvs) && forallb (fun '(k, x) => str_ok k && json_wf x) kvs
  | _ => true
  end.

(** No number with a fraction, an exponent or a special value anywhere. *)
Fixpoint no_float (v : jvalue) : bool :=
  match v with
  | JFloat _ => false
  | JArr xs => forallb no_float xs
  | JObj kvs => forallb (fun '(_, x) => no_float x) kvs
  | _ => true
  end.

(** Every string of a value, keys included. *)
Fixpoint jstrings (v : jvalue) : list pystr :=
  match v with
  | JStr s => [s]
  | JArr xs => flat_map jstrings xs
  | JObj kvs => flat_map (fun '(k, x) => k :: jstrings x) kvs
  | _ => []
  end.

(** The nesting size of a value: what the scanner's recursion needs. *)
Fixpoint jsize (v : jvalue) : nat :=
  match v with
  | JArr xs => 2 + list_sum (map (fun x => S (jsize x)) xs)
  | JObj kvs => 2 + list_sum (map (fun '(_, x) => S (jsize x)) kvs)
  | _ => 1
  end.

(** Induction on values through the nested lists. *)
Section JvalueInd.
Variable P : jvalue -> Prop.
Hypothesis HNull : P JNull.
Hypothesis HBool : forall b, P (JBool b).
Hypothesis HInt : forall n, P (JInt n).
Hypothesis HFloat : forall l, P (JFloat l).
Hypothesis HStr : forall s, P (JStr s).
Hypothesis HArr : forall xs, Forall P xs -> P (JArr xs).
Hypothesis HObj : forall kvs, Forall (fun kv => P (snd kv)) kvs -> P (JObj kvs).

Fixpoint jvalue_ind_deep (v : jvalue) : P v :=
  match v with
  | JNull => HNull
  | JBool b => HBool b
  | JInt n => HInt n
  | JFloat l => HFloat l
  | JStr s => HStr s
  | JArr xs =>
      HArr xs ((fix go (l : list jvalue) : Forall P l :=
                  match l with
                  | [] => Forall_nil _
                  | x :: l' => Forall_cons _ (jvalue_ind_deep x) (go l')
                  end) xs)
  | JObj kvs =>
      HObj kvs ((fix go (l : list (pystr * jvalue)) : Forall (fun kv => P (snd kv)) l :=
                   match l with
                   | [] => Forall_nil _
                   | (k, x) :: l' =>
                       @Forall_cons _ (fun kv => P (snd kv)) (k, x) l' (jvalue_ind_deep x) (go l')
                   end) kvs)
  end.
End JvalueInd.

(* ================================================================== *)
(** * Properties *)

(** ** The cleanup *)

(** *** Reading the tables: [row.cells] looks only at the cell properties *)

Section CellMap.
Context {C D : Type} (h : C -> D).

Lemma tc_at_grid_offset_map (off : Z) (tr : list (tc_props * C)) :
  tc_at_grid_offset off (map (cell_map h) tr) = option_map (cell_map h) (tc_at_grid_offset off tr).
Proof.
  revert off. induction tr as [|[pr c] tr IH]; intros off; simpl; [reflexivity|].
  destruct (off <? 0); [reflexivity|]. destruct (off =? 0); [reflexivity|]. apply IH.
Qed.

Lemma tc_origin_map (above : list (list (tc_props * C))) (off : Z) (tc : tc_props * C) :
  tc_origin (map (map (cell_map h)) above) off (cell_map h tc)
  = option_map (cell_map h) (tc_origin above off tc).
Proof.
  revert tc. induction above as [|tr above IH]; intros [pr c]; simpl;
    destruct (vMerge pr); try reflexivity.
  rewrite tc_at_grid_offset_map. destruct (tc_at_grid_offset off tr) as [tc'|]; simpl.
  - apply IH.
  - reflexivity.
Qed.

Lemma row_cells_map (above : list (list (tc_props * C))) (off : Z) (tcs : list (tc_props * C)) :
  row_cells (map (map (cell_map h)) above) off (map (cell_map h) tcs)
  = option_map (map (cell_map h)) (row_cells above off tcs).
Proof.
  revert off. induction tcs as [|tc tcs IH]; intros off; [reflexivity|].
  change (map (cell_map h) (tc :: tcs)) with (cell_map h tc :: map (cell_map h) tcs).
  cbn [row_cells]. rewrite tc_origin_map.
  replace (grid_span (fst (cell_map h tc))) with (grid_span (fst tc)) by (destruct tc; reflexivity).
  rewrite IH.
  destruct (tc_origin above off tc) as [[pr c]|]; simpl; [|reflexivity].
  destruct (row_cells above (off + Z.of_nat (grid_span (fst tc))) tcs); simpl; [|reflexivity].
  rewrite map_app, map_repeat. reflexivity.
Qed.

Lemma table_cells_map (above trs : list (list (tc_props * C))) :
  table_cells (map (map (cell_map h)) above) (map (map (cell_map h)) trs)
  = option_map (map (cell_map h)) (table_cells above trs).
Proof.
  revert above. induction trs as [|tr trs IH]; intros above; [reflexivity|].
  simpl. rewrite row_cells_map.
  change (map (cell_map h) tr :: map (map (cell_map h)) above)
    with (map (map (cell_map h)) (tr :: above)).
  rewrite IH.
  destruct (row_cells above 0 tr); simpl; [|reflexivity].
  destruct (table_cells (tr :: above) trs); simpl; [|reflexivity].
  rewrite map_app. reflexivity.
Qed.

Lemma table_cells_map_top (trs : list (list (tc_props * C))) :
  table_cells [] (map (map (cell_map h)) trs) = option_map (map (cell_map h)) (table_cells [] trs).
Proof. exact (table_cells_map [] trs). Qed.

End CellMap.

Lemma map_cell_map_comp {A B C : Type} (f : B -> C) (g : A -> B) (rows : list (list (tc_props * A))) :
  map (map (cell_map f)) (map (map (cell_map g)) rows) = map (map (cell_map (fun x => f (g x)))) rows.
Proof.
  rewrite map_map. apply map_ext; intros row. rewrite map_map.
  apply map_ext; intros [pr c]. reflexivity.
Qed.

(** [row.cells] lists cells of the table only. *)
Lemma tc_at_grid_offset_in {C : Type} (off : Z) (tr : list (tc_props * C)) (tc : tc_props * C) :
  tc_at_grid_offset off tr = Some tc -> In tc tr.
Proof.
  revert off. induction tr as [|x tr IH]; intros off; simpl; [discriminate|].
  destruct (off <? 0); [discriminate|]. destruct (off =? 0).
  - intros H. injection H as ->. left. reflexivity.
  - intros H. right. exact (IH _ H).
Qed.

Lemma tc_origin_in {C : Type} (above : list (list (tc_props * C))) (off : Z) (tc o : tc_props * C) :
  tc_origin above off tc = Some o -> o = tc \/ exists tr, In tr above /\ In o tr.
Proof.
  revert tc. induction above as [|tr above IH]; intros tc; simpl;
    destruct (vMerge (fst tc)); try (intros H; injection H as ->; left; reflexivity);
    try discriminate.
  destruct (tc_at_grid_offset off tr) as [tc'|] eqn:E; [|discriminate].
  intros H. right. destruct (IH tc' H) as [->|[tr' [Htr Ho]]].
  - exists tr. split; [left; reflexivity|]. exact (tc_at_grid_offset_in _ _ _ E).
  - exists tr'. split; [right; exact Htr|exact Ho].
Qed.

Lemma row_cells_in {C : Type} (above : list (list (tc_props * C))) (off : Z)
    (tcs cs : list (tc_props * C)) (o : tc_props * C) :
  row_cells above off tcs = Some cs -> In o cs -> In o tcs \/ exists tr, In tr above /\ In o tr.
Proof.
  revert off cs. induction tcs as [|tc tcs IH]; intros off cs; simpl.
  - intros H. injection H as <-. intros [].
  - destruct (tc_origin above off tc) as [o'|] eqn:Eo; [|discriminate].
    destruct (row_cells above (off + Z.of_nat (grid_span (fst tc))) tcs) as [cs'|] eqn:Er;
      [|discriminate].
    intros H. injection H as <-. intros Hin. apply in_app_or in Hin. destruct Hin as [Hin|Hin].
    + apply repeat_spec in Hin. subst o'.
      destruct (tc_origin_in _ _ _ _ Eo) as [->|Hab]; [left; left; reflexivity|right; exact Hab].
    + destruct (IH _ _ Er Hin) as [Hin'|Hab]; [left; right; exact Hin'|right; exact Hab].
Qed.

Lemma table_cells_in {C : Type} (above trs : list (list (tc_props * C))) (cs : list (tc_props * C))
    (o : tc_props * C) :
  table_cells above trs = Some cs -> In o cs -> exists tr, (In tr trs \/ In tr above) /\ In o tr.
Proof.
  revert above cs. induction trs as [|tr trs IH]; intros above cs; simpl.
  - intros H. injection H as <-. intros [].
  - destruct (row_cells above 0 tr) as [c1|] eqn:E1; [|discriminate].
    destruct (table_cells (tr :: above) trs) as [c2|] eqn:E2; [|discriminate].
    intros H. injection H as <-. intros Hin. apply in_app_or in Hin. destruct Hin as [Hin|Hin].
    + destruct (row_cells_in _ _ _ _ _ E1 Hin) as [Hin'|[tr' [Htr Ho]]].
      * exists tr. split; [left; left; reflexivity|exact Hin'].
      * exists tr'. split; [right; exact Htr|exact Ho].
    + destruct (IH _ _ E2 Hin) as [tr' [[Htr|[<-|Htr]] Ho]].
      * exists tr'. split; [left; right; exact Htr|exact Ho].
      * exists tr. split; [left; left; reflexivity|exact Ho].
      * exists tr'. split; [right; exact Htr|exact Ho].
Qed.



(** *** Lists of results *)

Lemma opt_concat_app {A : Type} (xs ys : list (option (list A))) :
  opt_concat (xs ++ ys)
  = match opt_concat xs, opt_concat ys with Some a, Some b => Some (a ++ b) | _, _ => None end.
Proof.
  induction xs as [|x xs IH]; simpl.
  - destruct (opt_concat ys); reflexivity.
  - rewrite IH. destruct x, (opt_concat xs), (opt_concat ys); simpl; try reflexivity.
    rewrite app_assoc. reflexivity.
Qed.

Lemma filter_app {A} (f : A -> bool) (a b : list A) :
  filter f (a ++ b) = filter f a ++ filter f b.
Proof. induction a as [|x a IH]; simpl; [reflexivity|]. destruct (f x); simpl; rewrite IH; reflexivity. Qed.

Lemma opt_concat_filter {A : Type} (f : A -> bool) (xs : list (option (list A))) :
  opt_concat (map (option_map (filter f)) xs) = option_map (filter f) (opt_concat xs).
Proof.
  induction xs as [|x xs IH]; simpl; [reflexivity|].
  rewrite IH. destruct x, (opt_concat xs); simpl; try reflexivity.
  rewrite filter_app. reflexivity.
Qed.

Lemma opt_concat_in {A : Type} (xs : list (option (list A))) (l : list A) (q : A) :
  opt_concat xs = Some l -> In q l -> exists x, In (Some x) xs /\ In q x.
Proof.
  revert l. induction xs as [|x xs IH]; intros l; simpl.
  - intros H. injection H as <-. intros [].
  - destruct x as [a|]; [|discriminate]. destruct (opt_concat xs) as [b|] eqn:E; [|discriminate].
    intros H. injection H as <-. intros Hin. apply in_app_or in Hin. destruct Hin as [Hin|Hin].
    + exists a. split; [left; reflexivity|exact Hin].
    + destruct (IH b eq_refl Hin) as [x [Hx Hq]]. exists x. split; [right; exact Hx|exact Hq].
Qed.


(** *** The enumeration *)

Lemma table_paragraphs_eq (rows : list (list (tc_props * list block))) :
  table_paragraphs (BTable rows)
  = match table_cells [] (map (map (cell_map iter_paragraphs)) rows) with
    | Some cells => opt_concat (map snd cells)
    | None => None
    end.
Proof. reflexivity. Qed.

Lemma filter_block_eq (keep : paragraph -> bool) (rows : list (list (tc_props * list block))) :
  filter_block keep (BTable rows)
  = [BTable (map (map (cell_map (flat_map (filter_block keep)))) rows)].
Proof. reflexivity. Qed.

Lemma direct_paragraphs_filter (f : paragraph -> bool) (bs : list block) :
  direct_paragraphs (flat_map (filter_block f) bs) = filter f (direct_paragraphs bs).
Proof.
  induction bs as [|[p|rows] bs IH]; simpl; [reflexivity| |exact IH].
  destruct (f p); simpl; rewrite IH; reflexivity.
Qed.

Section FilterEnum.
Variable f : paragraph -> bool.

Let P (b : block) : Prop :=
  opt_concat (map table_paragraphs (filter_block f b)) = option_map (filter f) (table_paragraphs b).

Lemma iter_paragraphs_filter_list (c : list block) :
  Forall P c -> iter_paragraphs (flat_map (filter_block f) c) = option_map (filter f) (iter_paragraphs c).
Proof.
  intros H. unfold iter_paragraphs. rewrite direct_paragraphs_filter.
  assert (Ht : opt_concat (map table_paragraphs (flat_map (filter_block f) c))
               = option_map (filter f) (opt_concat (map table_paragraphs c))).
  { induction c as [|b c IH]; simpl; [reflexivity|].
    inversion H as [|? ? Hb Hc]; subst.
    rewrite map_app, opt_concat_app, Hb, IH by exact Hc.
    destruct (table_paragraphs b), (opt_concat (map table_paragraphs c)); simpl; try reflexivity.
    rewrite filter_app. reflexivity. }
  rewrite Ht. destruct (opt_concat (map table_paragraphs c)); simpl; [|reflexivity].
  rewrite filter_app. reflexivity.
Qed.

Lemma table_paragraphs_filter (b : block) : P b.
Proof.
  induction b as [p|rows IH] using block_ind_deep; unfold P.
  - simpl. destruct (f p); reflexivity.
  - rewrite filter_block_eq. cbn [map opt_concat]. rewrite !table_paragraphs_eq.
    rewrite map_cell_map_comp.
    rewrite (map_ext_in (map (cell_map (fun x => iter_paragraphs (flat_map (filter_block f) x))))
                        (fun row => map (cell_map (option_map (filter f)))
                                        (map (cell_map iter_paragraphs) row)) rows).
    2:{ intros row Hrow. rewrite map_map. apply map_ext_in. intros [pr c] Hc. simpl. f_equal.
        apply iter_paragraphs_filter_list.
        rewrite Forall_forall in IH. specialize (IH row Hrow).
        rewrite Forall_forall in IH. exact (IH _ Hc). }
    rewrite <- (map_map (map (cell_map iter_paragraphs))).
    rewrite table_cells_map_top.
    destruct (table_cells [] (map (map (cell_map iter_paragraphs)) rows)) as [cells|]; simpl.
    + rewrite map_map.
      rewrite (map_ext (fun x => snd (cell_map (option_map (filter f)) x))
                       (fun x => option_map (filter f) (snd x)))
        by (intros [pr c]; reflexivity).
      rewrite <- map_map, opt_concat_filter.
      destruct (opt_concat (map snd cells)); simpl; rewrite ?app_nil_r; reflexivity.
    + reflexivity.
Qed.

(** Filtering the tree filters the enumeration. *)
Lemma iter_paragraphs_filter (d : document) :
  iter_paragraphs (flat_map (filter_block f) d) = option_map (filter f) (iter_paragraphs d).
Proof.
  apply iter_paragraphs_filter_list. apply Forall_forall. intros b _. apply table_paragraphs_filter.
Qed.

End FilterEnum.

Section InTree.
Variable q : paragraph.

Let Q (b : block) : Prop :=
  forall ps, table_paragraphs b = Some ps -> In q ps -> In q (block_paragraphs b).

Lemma iter_paragraphs_in_list (c : list block) (l : list paragraph) :
  Forall Q c -> iter_paragraphs c = Some l -> In q l -> In q (flat_map block_paragraphs c).
Proof.
  intros HQ. unfold iter_paragraphs.
  destruct (opt_concat (map table_paragraphs c)) as [t|] eqn:Et; [|discriminate].
  simpl. intros Hl Hq. injection Hl as <-. apply in_app_or in Hq. destruct Hq as [Hd|Ht].
  - clear Et HQ. induction c as [|[p|rs] c IHc]; simpl in *; [destruct Hd|..].
    + destruct Hd as [->|Hd]; [left; reflexivity|right; exact (IHc Hd)].
    + apply in_or_app. right. exact (IHc Hd).
  - revert t Et Ht. induction c as [|b c IHc]; simpl; intros t Et Ht.
    + injection Et as <-. destruct Ht.
    + inversion HQ as [|? ? Hb Hc]; subst.
      destruct (table_paragraphs b) as [tb|] eqn:Eb; [|discriminate].
      destruct (opt_concat (map table_paragraphs c)) as [tc|] eqn:Etc; [|discriminate].
      injection Et as <-. apply in_or_app. apply in_app_or in Ht.
      destruct Ht as [Ht|Ht]; [left; exact (Hb _ Eb Ht)|right; exact (IHc Hc _ eq_refl Ht)].
Qed.

Lemma table_paragraphs_in_tree (b : block) : Q b.
Proof.
  induction b as [p|rows IH] using block_ind_deep; intros ps.
  - simpl. intros H. injection H as <-. intros [].
  - rewrite table_paragraphs_eq.
    destruct (table_cells [] (map (map (cell_map iter_paragraphs)) rows)) as [cells|] eqn:Ec;
      [|discriminate].
    intros Hps Hq. destruct (opt_concat_in _ _ _ Hps Hq) as [l [Hl Hql]].
    apply in_map_iff in Hl. destruct Hl as [o [Ho Hocells]].
    destruct (table_cells_in _ _ _ _ Ec Hocells) as [tr [[Htr|[]] Hotr]].
    apply in_map_iff in Htr. destruct Htr as [row [<- Hrow]].
    apply in_map_iff in Hotr. destruct Hotr as [[pr c] [Hoc Hcrow]]. subst o.
    simpl in Ho. simpl.
    apply in_flat_map. exists row. split; [exact Hrow|].
    apply in_flat_map. exists (pr, c). split; [exact Hcrow|].
    rewrite Forall_forall in IH. specialize (IH row Hrow).
    rewrite Forall_forall in IH. specialize (IH _ Hcrow). simpl in IH.
    exact (iter_paragraphs_in_list c l IH Ho Hql).
Qed.

End InTree.

(** Every enumerated paragraph is a paragraph of the tree. *)
Lemma iter_paragraphs_in_tree (d : document) (ps : list paragraph) (q : paragraph) :
  iter_paragraphs d = Some ps -> In q ps -> In q (tree_paragraphs d).
Proof.
  apply iter_paragraphs_in_list. apply Forall_forall. intros b _. apply table_paragraphs_in_tree.
Qed.

(** *** Filtering the tree *)

Lemma flat_map_ext_in {A B} (f g : A -> list B) (l : list A) :
  (forall x, In x l -> f x = g x) -> flat_map f l = flat_map g l.
Proof.
  induction l as [|x l IH]; intros H; simpl; [reflexivity|].
  rewrite (H x (or_introl eq_refl)), IH; [reflexivity|].
  intros y Hy; apply H; right; exact Hy.
Qed.

Lemma filter_flat_map {A B} (f : B -> bool) (g : A -> list B) (l : list A) :
  filter f (flat_map g l) = flat_map (fun x => filter f (g x)) l.
Proof. induction l as [|x l IH]; simpl; [reflexivity|]. rewrite filter_app, IH; reflexivity. Qed.

Lemma flat_map_map_comp {A B C} (f : B -> list C) (g : A -> B) (l : list A) :
  flat_map f (map g l) = flat_map (fun x => f (g x)) l.
Proof. induction l as [|x l IH]; simpl; [reflexivity|]. rewrite IH; reflexivity. Qed.

Lemma flat_map_flat_map {A B C} (f : B -> list C) (g : A -> list B) (l : list A) :
  flat_map f (flat_map g l) = flat_map (fun x => flat_map f (g x)) l.
Proof. induction l as [|x l IH]; simpl; [reflexivity|]. rewrite flat_map_app, IH; reflexivity. Qed.

Lemma block_paragraphs_filter (f : paragraph -> bool) (b : block) :
  flat_map block_paragraphs (filter_block f b) = filter f (block_paragraphs b).
Proof.
  induction b as [p|rows IH] using block_ind_deep.
  - simpl. destruct (f p); reflexivity.
  - rewrite filter_block_eq. simpl. rewrite app_nil_r, filter_flat_map, flat_map_map_comp.
    apply flat_map_ext_in; intros row Hrow.
    rewrite filter_flat_map, flat_map_map_comp.
    apply flat_map_ext_in; intros [pr c] Hc. simpl.
    rewrite Forall_forall in IH. specialize (IH row Hrow).
    rewrite Forall_forall in IH. specialize (IH _ Hc). simpl in IH.
    rewrite flat_map_flat_map, filter_flat_map.
    apply flat_map_ext_in; intros x Hx. rewrite Forall_forall in IH. apply IH, Hx.
Qed.

(** Filtering the tree filters its paragraphs. *)
Lemma tree_paragraphs_filter (f : paragraph -> bool) (d : document) :
  tree_paragraphs (flat_map (filter_block f) d) = filter f (tree_paragraphs d).
Proof.
  unfold tree_paragraphs. rewrite flat_map_flat_map, filter_flat_map.
  apply flat_map_ext_in; intros b _. apply block_paragraphs_filter.
Qed.

Lemma filter_block_compose (f g : paragraph -> bool) (b : block) :
  flat_map (filter_block f) (filter_block g b) = filter_block (fun q => g q && f q) b.
Proof.
  induction b as [p|rows IH] using block_ind_deep.
  - simpl. destruct (g p); simpl; [|reflexivity]. rewrite app_nil_r. reflexivity.
  - rewrite !filter_block_eq. cbn [flat_map]. rewrite filter_block_eq, app_nil_r, map_cell_map_comp.
    do 2 f_equal.
    apply map_ext_in; intros row Hrow. apply map_ext_in; intros [pr c] Hc. simpl. f_equal.
    rewrite Forall_forall in IH. specialize (IH row Hrow).
    rewrite Forall_forall in IH. specialize (IH _ Hc). simpl in IH.
    rewrite flat_map_flat_map. apply flat_map_ext_in; intros x Hx.
    rewrite Forall_forall in IH. apply IH, Hx.
Qed.

Lemma filter_doc_compose (f g : paragraph -> bool) (d : document) :
  flat_map (filter_block f) (flat_map (filter_block g) d)
  = flat_map (filter_block (fun q => g q && f q)) d.
Proof.
  rewrite flat_map_flat_map. apply flat_map_ext_in; intros b _. apply filter_block_compose.
Qed.

Lemma filter_block_ext (f g : paragraph -> bool) (b : block) :
  (forall q, f q = g q) -> filter_block f b = filter_block g b.
Proof.
  intros Hfg.
  induction b as [p|rows IH] using block_ind_deep.
  - simpl. rewrite Hfg. reflexivity.
  - rewrite !filter_block_eq. do 2 f_equal.
    apply map_ext_in; intros row Hrow. apply map_ext_in; intros [pr c] Hc. simpl. f_equal.
    rewrite Forall_forall in IH. specialize (IH row Hrow).
    rewrite Forall_forall in IH. specialize (IH _ Hc). simpl in IH.
    apply flat_map_ext_in. intros x Hx. rewrite Forall_forall in IH. apply IH, Hx.
Qed.

Lemma filter_doc_ext (f g : paragraph -> bool) (d : document) :
  (forall q, f q = g q) -> flat_map (filter_block f) d = flat_map (filter_block g) d.
Proof. intros H. apply flat_map_ext_in; intros b _. apply filter_block_ext, H. Qed.

(** Filtering with a predicate true on every paragraph of the tree is the identity. *)
Lemma filter_block_id (f : paragraph -> bool) (b : block) :
  (forall q, In q (block_paragraphs b) -> f q = true) -> filter_block f b = [b].
Proof.
  induction b as [p|rows IH] using block_ind_deep; intros H.
  - simpl. rewrite (H p); [reflexivity|left; reflexivity].
  - rewrite filter_block_eq. do 2 f_equal.
    transitivity (map (fun row : list (tc_props * list block) => row) rows); [|apply map_id].
    apply map_ext_in; intros row Hrow.
    transitivity (map (fun tc : tc_props * list block => tc) row); [|apply map_id].
    apply map_ext_in; intros [pr c] Hc. simpl. f_equal.
    rewrite Forall_forall in IH. specialize (IH row Hrow).
    rewrite Forall_forall in IH. specialize (IH _ Hc). simpl in IH.
    assert (Hin : forall q, In q (flat_map block_paragraphs c) -> f q = true).
    { intros q Hq. apply H. simpl. apply in_flat_map. exists row. split; [exact Hrow|].
      apply in_flat_map. exists (pr, c). split; [exact Hc|exact Hq]. }
    clear H Hrow Hc.
    induction c as [|x c IHc]; simpl; [reflexivity|].
    inversion IH as [|? ? Hx Hcs]; subst.
    rewrite Hx, IHc; [reflexivity|exact Hcs| |].
    + intros q Hq. apply Hin. simpl. apply in_or_app. right. exact Hq.
    + intros q Hq. apply Hin. simpl. apply in_or_app. left. exact Hq.
Qed.

Lemma filter_doc_id (f : paragraph -> bool) (d : document) :
  (forall q, In q (tree_paragraphs d) -> f q = true) -> flat_map (filter_block f) d = d.
Proof.
  induction d as [|b d IH]; intros H; simpl; [reflexivity|].
  rewrite filter_block_id, IH; [reflexivity| |].
  - intros q Hq. apply H. simpl. apply in_or_app. right. exact Hq.
  - intros q Hq. apply H. simpl. apply in_or_app. left. exact Hq.
Qed.

(** *** The loop *)

Lemma bind_ok {A B} (m : outcome A) (k : A -> outcome B) (b : B) :
  bind m k = Ok b -> exists a, m = Ok a /\ k a = Ok b.
Proof. destruct m as [a| |]; simpl; [intros H; exists a; split; [reflexivity|exact H]|discriminate..]. Qed.

(** Run on a filtered copy of [d], the loop leaves the copy further filtered
    by [survives]. *)
Lemma clean_loop_ok (ps : list paragraph) (g : paragraph -> bool) (d d' : document) :
  clean_loop ps (flat_map (filter_block g) d) = Ok d' ->
  d' = flat_map (filter_block (fun q => g q && survives ps q)) d.
Proof.
  revert g. induction ps as [|p ps IH]; intros g; simpl.
  - intros H. injection H as <-. apply filter_doc_ext. intros q. rewrite andb_true_r. reflexivity.
  - destruct (is_effectively_empty p) eqn:Ep.
    + intros H. apply bind_ok in H. destruct H as [d1 [Hdel Hrest]].
      unfold delete_paragraph in Hdel.
      destruct (existsb _ _); [|discriminate]. injection Hdel as <-.
      rewrite filter_doc_compose in Hrest. rewrite (IH _ Hrest).
      apply filter_doc_ext. intros q. simpl. rewrite andb_assoc. reflexivity.
    + intros H. rewrite (IH g H). apply filter_doc_ext. intros q. reflexivity.
Qed.

(** A completed cleanup removes, from the original tree, exactly the
    paragraphs that share their identity with an effectively empty
    enumerated paragraph. *)
Lemma clean_ok (d d' : document) :
  clean d = Ok d' ->
  exists ps, iter_paragraphs d = Some ps /\ d' = flat_map (filter_block (survives ps)) d.
Proof.
  unfold clean. destruct (iter_paragraphs d) as [ps|]; [|discriminate].
  intros H. exists ps. split; [reflexivity|].
  rewrite <- (filter_doc_id (fun _ => true) d) in H by reflexivity.
  rewrite (clean_loop_ok _ _ _ _ H). apply filter_doc_ext. reflexivity.
Qed.

Lemma clean_loop_nonempty (ps : list paragraph) (d : document) :
  (forall p, In p ps -> is_effectively_empty p = false) -> clean_loop ps d = Ok d.
Proof.
  induction ps as [|p ps IH]; intros H; simpl; [reflexivity|].
  rewrite (H p (or_introl eq_refl)). apply IH. intros q Hq. apply H. right. exact Hq.
Qed.


(** *** Trees without merged cells *)




(** *** Which paragraphs survive *)

Lemma survives_self_false (l : list paragraph) (p : paragraph) :
  In p l -> is_effectively_empty p = true -> survives l p = false.
Proof.
  intros Hin He. unfold survives. apply not_true_iff_false. intros Hall.
  rewrite forallb_forall in Hall. specialize (Hall p Hin).
  rewrite He, Nat.eqb_refl in Hall. discriminate.
Qed.

Lemma NoDup_map_inj {A B} (f : A -> B) (l : list A) (x y : A) :
  NoDup (map f l) -> In x l -> In y l -> f x = f y -> x = y.
Proof.
  induction l as [|a l IH]; simpl; intros Hnd Hx Hy Hf; [destruct Hx|].
  inversion Hnd as [|? ? Hnot Hnd']; subst.
  destruct Hx as [<-|Hx], Hy as [<-|Hy]; try reflexivity.
  - exfalso. apply Hnot. rewrite Hf. apply in_map, Hy.
  - exfalso. apply Hnot. rewrite <- Hf. apply in_map, Hx.
  - apply IH; assumption.
Qed.

(** On a tree of distinct elements, a paragraph that is not effectively empty
    survives any enumeration of the tree's paragraphs. *)
Lemma survives_nonempty (t l : list paragraph) (q : paragraph) :
  NoDup (map p_id t) -> incl l t -> In q t -> is_effectively_empty q = false ->
  survives l q = true.
Proof.
  intros Hnd Hl Hq E. unfold survives. apply forallb_forall. intros p Hp.
  destruct (Nat.eqb (p_id q) (p_id p)) eqn:Eid; [|rewrite andb_false_r; reflexivity].
  apply Nat.eqb_eq in Eid.
  rewrite (NoDup_map_inj p_id t p q Hnd (Hl p Hp) Hq (eq_sym Eid)), E. reflexivity.
Qed.

Lemma str_eqb_eq (a b : pystr) : str_eqb a b = true <-> a = b.
Proof.
  revert b; induction a as [|x a IH]; intros [|y b]; simpl; split; intros H;
    try discriminate; try reflexivity.
  - apply andb_true_iff in H. destruct H as [H1 H2].
    apply Z.eqb_eq in H1. apply IH in H2. subst. reflexivity.
  - injection H as -> ->. rewrite Z.eqb_refl. simpl. apply IH. reflexivity.
Qed.

Lemma no_page_column_break (p : paragraph) :
  Forall (fun t => t <> Some (lit "page") /\ t <> Some (lit "column")) (p_brs p) ->
  has_page_or_column_break p = false.
Proof.
  intros H. unfold has_page_or_column_break. apply not_true_iff_false.
  intros Hex. apply existsb_exists in Hex. destruct Hex as [[t|] [Hin Ht]]; [|discriminate].
  rewrite Forall_forall in H. specialize (H _ Hin). destruct H as [H1 H2].
  apply orb_true_iff in Ht. destruct Ht as [Ht|Ht]; apply str_eqb_eq in Ht; subst; auto.
Qed.

Lemma page_column_break_protects (p : paragraph) :
  p_sectPr p = true \/ In (Some (lit "page")) (p_brs p) \/ In (Some (lit "column")) (p_brs p) ->
  is_effectively_empty p = false.
Proof.
  intros H. unfold is_effectively_empty, has_section_break.
  destruct H as [H|[H|H]].
  - rewrite H, andb_false_r. reflexivity.
  - replace (has_page_or_column_break p) with true; [rewrite !andb_false_r; reflexivity|].
    symmetry. apply existsb_exists. eexists; split; [exact H|reflexivity].
  - replace (has_page_or_column_break p) with true; [rewrite !andb_false_r; reflexivity|].
    symmetry. apply existsb_exists. eexists; split; [exact H|reflexivity].
Qed.

Lemma empty_unprotected (p : paragraph) :
  py_strip (p_text p) = [] -> p_sectPr p = false ->
  Forall (fun t => t <> Some (lit "page") /\ t <> Some (lit "column")) (p_brs p) ->
  is_effectively_empty p = true.
Proof.
  intros Ht Hs Hb. unfold is_effectively_empty, has_section_break.
  rewrite Ht, Hs, no_page_column_break by exact Hb. reflexivity.
Qed.

(** After a completed cleanup no element shares its identity with an
    effectively empty enumerated paragraph. *)
Lemma clean_removes_empty (d d' : document) (ps : list paragraph) (p : paragraph) :
  clean d = Ok d' -> iter_paragraphs d = Some ps -> In p ps -> is_effectively_empty p = true ->
  forall q, In q (tree_paragraphs d') -> p_id q <> p_id p.
Proof.
  intros Hc Hps Hin He q Hq Hid.
  destruct (clean_ok d d' Hc) as [ps' [Hps' ->]]. rewrite Hps in Hps'. injection Hps' as <-.
  rewrite tree_paragraphs_filter in Hq. apply filter_In in Hq. destruct Hq as [_ Hs].
  unfold survives in Hs. rewrite forallb_forall in Hs.
  specialize (Hs p Hin). rewrite He, Hid, Nat.eqb_refl in Hs. discriminate.
Qed.

Example clean_doc_deep :
  clean doc_deep =
  Ok [BPara para_page;
      BTable [[plain_cell [BTable [[plain_cell [BTable [[plain_cell [BPara para_text]]]]]]]]];
      BPara para_sect].
Proof. vm_compute. reflexivity. Qed.

(** C1: on a tree whose paragraphs are distinct elements, a completed
    cleanup only removes effectively empty paragraphs: the result is the tree
    with some of those taken out, everything else in place and unchanged; in
    particular every paragraph carrying a section break or a page or column
    break is still there whatever its text.  A blank enumerated paragraph
    whose breaks are of any other kind (line breaks) is removed. *)
Theorem clean_keeps_break_paragraphs (d d' : document) :
  NoDup (map p_id (tree_paragraphs d)) ->
  clean d = Ok d' ->
  (exists keep, d' = flat_map (filter_block keep) d
                /\ forall p, In p (tree_paragraphs d) -> is_effectively_empty p = false -> keep p = true)
  /\ (forall p, In p (tree_paragraphs d) ->
        p_sectPr p = true \/ In (Some (lit "page")) (p_brs p) \/ In (Some (lit "column")) (p_brs p) ->
        In p (tree_paragraphs d'))
  /\ (forall ps p, iter_paragraphs d = Some ps -> In p ps ->
        py_strip (p_text p) = [] -> p_sectPr p = false ->
        Forall (fun t => t <> Some (lit "page") /\ t <> Some (lit "column")) (p_brs p) ->
        ~ In p (tree_paragraphs d')).
Proof.
  intros Hnd Hc.
  destruct (clean_ok d d' Hc) as [ps [Hps Hd']].
  assert (Hkeep : forall p, In p (tree_paragraphs d) -> is_effectively_empty p = false ->
                            survives ps p = true).
  { intros p Hp E. apply (survives_nonempty (tree_paragraphs d)); try assumption.
    intros q Hq. exact (iter_paragraphs_in_tree d ps q Hps Hq). }
  split; [exists (survives ps); split; assumption|split].
  - intros p Hin Hprot. rewrite Hd', tree_paragraphs_filter. apply filter_In.
    split; [exact Hin|]. apply Hkeep; [exact Hin|]. apply page_column_break_protects, Hprot.
  - intros ps' p Hps' Hin Ht Hs Hb Hp.
    exact (clean_removes_empty d d' ps' p Hc Hps' Hin (empty_unprotected p Ht Hs Hb) p Hp eq_refl).
Qed.

Lemma clean_keeps_break_paragraphs_witness :
  exists d', clean doc_deep = Ok d'
             /\ In para_page (tree_paragraphs d') /\ In para_sect (tree_paragraphs d').
Proof.
  destruct (clean_keeps_break_paragraphs doc_deep
              [BPara para_page;
               BTable [[plain_cell [BTable [[plain_cell [BTable [[plain_cell [BPara para_text]]]]]]]]];
               BPara para_sect]
              ltac:(vm_compute; repeat constructor; simpl; intuition discriminate)
              ltac:(vm_compute; reflexivity)) as [_ [Hkeep _]].
  eexists. split; [vm_compute; reflexivity|split].
  - apply Hkeep; [vm_compute; auto|right; left; left; reflexivity].
  - apply Hkeep; [vm_compute; auto 6|left; reflexivity].
Defined.




(** C3: a completed cleanup is idempotent: cleaning its result completes and
    changes nothing. *)
Theorem clean_idempotent (d d' : document) : clean d = Ok d' -> clean d' = Ok d'.
Proof.
  intros Hc. destruct (clean_ok d d' Hc) as [ps [Hps Hd']].
  unfold clean. rewrite Hd' at 1. rewrite iter_paragraphs_filter, Hps. simpl.
  apply clean_loop_nonempty. intros p Hp. apply filter_In in Hp. destruct Hp as [Hin Hs].
  destruct (is_effectively_empty p) eqn:E; [|reflexivity].
  rewrite (survives_self_false ps p Hin E) in Hs. discriminate.
Qed.

Lemma clean_idempotent_witness :
  clean [BPara para_page;
         BTable [[plain_cell [BTable [[plain_cell [BTable [[plain_cell [BPara para_text]]]]]]]]];
         BPara para_sect]
  = Ok [BPara para_page;
        BTable [[plain_cell [BTable [[plain_cell [BTable [[plain_cell [BPara para_text]]]]]]]]];
        BPara para_sect].
Proof. apply (clean_idempotent doc_deep). vm_compute. reflexivity. Defined.

(** ** JSON coercion *)






(** C4 (the code misses it): the backtick strip leaves the [json] tag in
    front of the object, so a fenced reply with a language tag is rejected by
    both scripts, although the object itself parses. *)
Theorem fenced_json_reply_rejected :
  json_loads default_limits summary_json = Parsed summary_record
  /\ json_loads default_limits (py_strip fenced_reply) = DecodeError
  /\ py_strip_chars (lit "`") (py_strip fenced_reply) = lit "json" ++ [10] ++ summary_json ++ [10]
  /\ json_loads default_limits (py_strip_chars (lit "`") (py_strip fenced_reply)) = DecodeError
  /\ tailor_main (tailor_world_replying (Some fenced_reply))
     = Exit 5 (py_print [raw_output_header; fenced_reply])
  /\ update_main (update_world_replying (Some fenced_reply))
     = Raise (lit "json.decoder.JSONDecodeError").
Proof. vm_compute. repeat split; reflexivity. Qed.



Lemma is_prefix_app (n b : pystr) : is_prefix n (n ++ b) = true.
Proof. induction n as [|x n IH]; simpl; [reflexivity|]. rewrite Z.eqb_refl, IH. reflexivity. Qed.



(** ** Prompt assembly *)

Lemma is_prefix_refl (p : pystr) : is_prefix p p = true.
Proof. induction p as [|x p IH]; simpl; [reflexivity|]. rewrite Z.eqb_refl, IH. reflexivity. Qed.

Lemma is_prefix_app_inv (p a b : pystr) :
  is_prefix p (a ++ b) = true ->
  is_prefix p a = true \/ exists p2, p = a ++ p2 /\ is_prefix p2 b = true.
Proof.
  revert p. induction a as [|x a IH]; intros p H.
  - right. exists p. split; [reflexivity|exact H].
  - destruct p as [|y p]; [left; reflexivity|].
    simpl in H. apply andb_true_iff in H. destruct H as [Hxy H]. apply Z.eqb_eq in Hxy. subst y.
    destruct (IH p H) as [H'|[p2 [-> H']]].
    + left. simpl. rewrite Z.eqb_refl. exact H'.
    + right. exists p2. split; [reflexivity|exact H'].
Qed.

(** A pattern whose first character does not occur again cannot start inside
    a text that does not contain it and run into a following occurrence. *)
Lemma no_straddling_occurrence (h : Z) (t pre post : pystr) :
  existsb (Z.eqb h) t = false -> pre <> [] -> py_contains (h :: t) pre = false ->
  is_prefix (h :: t) (pre ++ (h :: t) ++ post) = false.
Proof.
  intros Hh Hpre Hc. apply not_true_iff_false. intros H.
  destruct (is_prefix_app_inv _ _ _ H) as [H1|[p2 [Hp2 H2]]].
  - destruct pre as [|c pre]; [contradiction|]. simpl in Hc.
    simpl in H1. rewrite H1 in Hc. discriminate.
  - destruct pre as [|c pre]; [contradiction|].
    simpl in Hp2. injection Hp2 as -> Ht.
    destruct p2 as [|x p2].
    + rewrite app_nil_r in Ht. subst t. simpl in Hc.
      rewrite Z.eqb_refl, is_prefix_refl in Hc. discriminate.
    + simpl in H2. apply andb_true_iff in H2. destruct H2 as [Hx _]. apply Z.eqb_eq in Hx. subst x.
      assert (Hin : existsb (Z.eqb c) t = true).
      { apply existsb_exists. exists c. split; [|apply Z.eqb_refl].
        rewrite Ht. apply in_or_app. right. left. reflexivity. }
      rewrite Hin in Hh. discriminate.
Qed.

Lemma replace_scan_absent (old new s : pystr) (n : nat) :
  py_contains old s = false -> replace_scan n old new s = s.
Proof.
  revert s. induction n as [|n IH]; intros s Hc; simpl; [reflexivity|].
  destruct s as [|c r]; [reflexivity|].
  simpl in Hc. apply orb_false_iff in Hc. destruct Hc as [Hp Hr].
  change (is_prefix old (c :: r)) with (is_prefix old (c :: r)). rewrite Hp.
  rewrite IH by exact Hr. reflexivity.
Qed.

Lemma replace_scan_first (h : Z) (t new pre post : pystr) (n : nat) :
  existsb (Z.eqb h) t = false -> py_contains (h :: t) pre = false ->
  (List.length pre < n)%nat ->
  replace_scan n (h :: t) new (pre ++ (h :: t) ++ post)
  = pre ++ new ++ replace_scan (n - S (List.length pre)) (h :: t) new post.
Proof.
  intros Hh. revert n. induction pre as [|c pre IH]; intros n Hc Hn.
  - destruct n as [|f]; [simpl in Hn; lia|]. simpl.
    rewrite Z.eqb_refl, is_prefix_app. simpl. rewrite skipn_app, skipn_all, Nat.sub_diag.
    simpl. rewrite Nat.sub_0_r. reflexivity.
  - destruct n as [|f]; [simpl in Hn; lia|].
    assert (Hs : is_prefix (h :: t) ((c :: pre) ++ (h :: t) ++ post) = false)
      by (apply no_straddling_occurrence; [exact Hh|discriminate|exact Hc]).
    simpl (replace_scan _ _ _ _). simpl in Hs. rewrite Hs.
    simpl in Hc. apply orb_false_iff in Hc. destruct Hc as [_ Hc].
    rewrite IH by (simpl in Hn; lia || exact Hc). reflexivity.
Qed.

Lemma py_join_length (sep x y : pystr) (rest : list pystr) :
  List.length (py_join sep (x :: y :: rest))
  = (List.length x + List.length sep + List.length (py_join sep (y :: rest)))%nat.
Proof. change (py_join sep (x :: y :: rest)) with (x ++ sep ++ py_join sep (y :: rest)).
  rewrite !length_app. lia. Qed.

Lemma replace_scan_join (h : Z) (t new : pystr) (pieces : list pystr) (n : nat) :
  existsb (Z.eqb h) t = false -> pieces <> [] ->
  Forall (fun x => py_contains (h :: t) x = false) pieces ->
  (List.length (py_join (h :: t) pieces) < n)%nat ->
  replace_scan n (h :: t) new (py_join (h :: t) pieces) = py_join new pieces.
Proof.
  intros Hh. revert n. induction pieces as [|x rest IH]; intros n Hne Hall Hn; [contradiction|].
  inversion Hall as [|? ? Hx Hrest]; subst.
  destruct rest as [|y rest].
  - simpl. apply replace_scan_absent. exact Hx.
  - pose proof (py_join_length (h :: t) x y rest) as Hlen.
    change (py_join (h :: t) (x :: y :: rest)) with (x ++ (h :: t) ++ py_join (h :: t) (y :: rest)).
    change (py_join new (x :: y :: rest)) with (x ++ new ++ py_join new (y :: rest)).
    rewrite replace_scan_first; [|exact Hh|exact Hx|].
    + rewrite IH; [reflexivity|discriminate|exact Hrest|].
      rewrite Hlen in Hn. simpl (List.length (h :: t)) in Hn. lia.
    + rewrite Hlen in Hn. lia.
Qed.

(** Every occurrence is replaced: a text made of pieces without the pattern,
    joined by the pattern, becomes the pieces joined by the replacement. *)
Lemma py_replace_join (h : Z) (t new : pystr) (pieces : list pystr) :
  existsb (Z.eqb h) t = false -> pieces <> [] ->
  Forall (fun x => py_contains (h :: t) x = false) pieces ->
  py_replace (h :: t) new (py_join (h :: t) pieces) = py_join new pieces.
Proof.
  intros Hh Hne Hall. unfold py_replace. apply replace_scan_join; auto.
Qed.

Lemma placeholder_job_shape :
  exists t, placeholder_job = 91 :: t /\ existsb (Z.eqb 91) t = false.
Proof. eexists. split; [reflexivity|vm_compute; reflexivity]. Qed.

Lemma placeholder_cv_shape :
  exists t, placeholder_cv = 91 :: t /\ existsb (Z.eqb 91) t = false.
Proof. eexists. split; [reflexivity|vm_compute; reflexivity]. Qed.

(** C6, as stated: the markers gate the substitution but the placeholders are
    what is replaced, so a template with both markers and no placeholder
    leaves the inputs out; a job placeholder inside the job spec is left in
    the output; and a CV placeholder inside the job spec is replaced by the
    CV, so the job spec does not appear verbatim and the CV appears twice. *)
Lemma build_prompt_markers_counterexample :
  build_prompt (marker_job ++ [10] ++ marker_cv) (lit "Job") (lit "CV")
    = marker_job ++ [10] ++ marker_cv
  /\ py_contains (lit "Job") (marker_job ++ [10] ++ marker_cv) = false
  /\ py_contains placeholder_job
       (build_prompt (marker_job ++ [10] ++ placeholder_job ++ [10] ++ marker_cv ++ [10] ++ placeholder_cv)
                     (lit "Job") placeholder_job) = true
  /\ build_prompt (marker_job ++ [10] ++ placeholder_job ++ [10] ++ marker_cv ++ [10] ++ placeholder_cv)
                  (lit "See " ++ placeholder_cv) (lit "CV")
     = marker_job ++ [10] ++ lit "See CV" ++ [10] ++ marker_cv ++ [10] ++ lit "CV"
  /\ py_contains (lit "See " ++ placeholder_cv)
       (marker_job ++ [10] ++ lit "See CV" ++ [10] ++ marker_cv ++ [10] ++ lit "CV") = false.
Proof. vm_compute. repeat split; reflexivity. Qed.

(** C6, amended: with both markers present, every occurrence of the job
    placeholder in the template is replaced by the job spec; then every
    occurrence of the CV placeholder in the resulting text, including one
    brought in by the job spec, is replaced by the CV.  A template holding
    each placeholder once (job first), with no occurrence of a placeholder
    elsewhere (the CV placeholder also not formed around the inserted job
    spec), becomes the template with both inputs verbatim in place of the
    placeholders. *)
Theorem build_prompt_with_markers (template job_spec cv_md : pystr) :
  py_contains marker_job template = true -> py_contains marker_cv template = true ->
  (forall pieces, pieces <> [] ->
     Forall (fun x => py_contains placeholder_job x = false) pieces ->
     template = py_join placeholder_job pieces ->
     py_replace placeholder_job job_spec template = py_join job_spec pieces
     /\ (forall qs, qs <> [] ->
           Forall (fun x => py_contains placeholder_cv x = false) qs ->
           py_join job_spec pieces = py_join placeholder_cv qs ->
           build_prompt template job_spec cv_md = py_join cv_md qs))
  /\ (forall t0 t1 t2,
        template = t0 ++ placeholder_job ++ t1 ++ placeholder_cv ++ t2 ->
        py_contains placeholder_job t0 = false ->
        py_contains placeholder_job (t1 ++ placeholder_cv ++ t2) = false ->
        py_contains placeholder_cv (t0 ++ job_spec ++ t1) = false ->
        py_contains placeholder_cv t2 = false ->
        build_prompt template job_spec cv_md = t0 ++ job_spec ++ t1 ++ cv_md ++ t2).
Proof.
  intros Ha Hb.
  assert (Hdef : build_prompt template job_spec cv_md
                 = py_replace placeholder_cv cv_md (py_replace placeholder_job job_spec template))
    by (unfold build_prompt; rewrite Ha, Hb; reflexivity).
  destruct placeholder_job_shape as [tj [Hj Htj]].
  destruct placeholder_cv_shape as [tc [Hc Htc]].
  split.
  - intros pieces Hne Hall Ht.
    assert (Hjob : py_replace placeholder_job job_spec template = py_join job_spec pieces)
      by (rewrite Ht; rewrite Hj in *; apply py_replace_join; assumption).
    split; [exact Hjob|].
    intros qs Hqne Hqall Hq. rewrite Hdef, Hjob, Hq. rewrite Hc in *.
    apply py_replace_join; assumption.
  - intros t0 t1 t2 Ht H0 H12 H0j H2. rewrite Hdef, Ht.
    rewrite Hj in *. rewrite Hc in *.
    change (t0 ++ (91 :: tj) ++ t1 ++ (91 :: tc) ++ t2)
      with (py_join (91 :: tj) [t0; t1 ++ (91 :: tc) ++ t2]).
    rewrite py_replace_join; [|exact Htj|discriminate|repeat constructor; assumption].
    simpl py_join. rewrite !app_assoc.
    change (((t0 ++ job_spec) ++ t1) ++ 91 :: tc ++ t2)
      with (py_join (91 :: tc) [(t0 ++ job_spec) ++ t1; t2]).
    rewrite py_replace_join; [|exact Htc|discriminate|].
    + simpl py_join. rewrite <- !app_assoc. reflexivity.
    + rewrite <- app_assoc. repeat constructor; assumption.
Qed.

Lemma build_prompt_with_markers_witness :
  build_prompt (marker_job ++ [10] ++ placeholder_job ++ [10] ++ marker_cv ++ [10] ++ placeholder_cv)
               (lit "See " ++ placeholder_cv) (lit "CV")
  = py_join (lit "CV") [marker_job ++ [10] ++ lit "See "; [10] ++ marker_cv ++ [10]; []].
Proof.
  destruct (build_prompt_with_markers
              (marker_job ++ [10] ++ placeholder_job ++ [10] ++ marker_cv ++ [10] ++ placeholder_cv)
              (lit "See " ++ placeholder_cv) (lit "CV"))
    as [H _]; [vm_compute; reflexivity|vm_compute; reflexivity|].
  destruct (H [marker_job ++ [10]; [10] ++ marker_cv ++ [10] ++ placeholder_cv])
    as [_ H']; [discriminate| |vm_compute; reflexivity|].
  - repeat apply Forall_cons; [vm_compute; reflexivity|vm_compute; reflexivity|apply Forall_nil].
  - apply H'; [discriminate| |vm_compute; reflexivity].
    repeat apply Forall_cons; try (vm_compute; reflexivity). apply Forall_nil.
Defined.

(** C7: when a marker is missing, the template is followed by the job spec
    and then the CV, each whole between its begin and end sentinel lines. *)
Theorem build_prompt_fallback (template job_spec cv_md : pystr) :
  py_contains marker_job template && py_contains marker_cv template = false ->
  build_prompt template job_spec cv_md
  = template ++ [10; 10] ++ delimited begin_job job_spec end_job
    ++ [10] ++ delimited begin_cv cv_md end_cv.
Proof.
  intros H. unfold build_prompt. rewrite H.
  unfold delimited, begin_job, end_job, begin_cv, end_cv.
  rewrite <- !app_assoc. reflexivity.
Qed.

Lemma build_prompt_fallback_witness :
  build_prompt (lit "Tailor my CV.") (lit "Job") (lit "CV")
  = lit "Tailor my CV." ++ [10; 10] ++ delimited begin_job (lit "Job") end_job
    ++ [10] ++ delimited begin_cv (lit "CV") end_cv.
Proof. apply build_prompt_fallback. vm_compute. reflexivity. Defined.

(** ** Exit codes *)


Lemma load_api_key_missing (w : tailor_world) (explicit_key key_file : option pystr) :
  opt_truthy explicit_key = false ->
  (forall kf, key_file = Some kf -> tw_exists w kf = false) ->
  opt_truthy (tw_env_key w) = false ->
  exists m, load_api_key w explicit_key key_file = Exit 3 m.
Proof.
  intros He Hf Hv. unfold load_api_key.
  destruct explicit_key as [k|]; simpl in He; [rewrite He|];
    (destruct key_file as [kf|]; [rewrite (Hf kf eq_refl)|]);
    unfold opt_truthy in Hv; destruct (tw_env_key w) as [v|]; try rewrite Hv;
    eexists; reflexivity.
Qed.





(** ** Credentials *)

(** C10, as stated: an [OPENAI_API_KEY] that is set but empty is not
    returned; the run exits with code 3. *)
Lemma load_api_key_empty_env_counterexample :
  tw_env_key (tailor_world_env (Some [])) = Some []
  /\ load_api_key (tailor_world_env (Some [])) None None
     = Exit 3 (py_print [lit "OpenAI API key not provided. Set OPENAI_API_KEY, use --api-key, or --api-key-file."]).
Proof. split; reflexivity. Qed.

(** C10, amended: a non-empty explicit key wins; otherwise an existing key
    file gives its stripped contents (a read error propagates); otherwise a
    non-empty [OPENAI_API_KEY]; otherwise exit code 3. *)
Theorem load_api_key_precedence (w : tailor_world) (explicit_key key_file : option pystr) :
  (forall k, explicit_key = Some k -> truthy k = true ->
     load_api_key w explicit_key key_file = Ok k)
  /\ (opt_truthy explicit_key = false -> forall kf, key_file = Some kf -> tw_exists w kf = true ->
        (forall s, tw_read_text w kf = Done s -> load_api_key w explicit_key key_file = Ok (py_strip s))
        /\ (forall e, tw_read_text w kf = Fails e -> load_api_key w explicit_key key_file = Raise e))
  /\ (opt_truthy explicit_key = false -> (forall kf, key_file = Some kf -> tw_exists w kf = false) ->
        (forall v, tw_env_key w = Some v -> truthy v = true -> load_api_key w explicit_key key_file = Ok v)
        /\ (opt_truthy (tw_env_key w) = false ->
            exists m, load_api_key w explicit_key key_file = Exit 3 m)).
Proof.
  split; [|split].
  - intros k -> Hk. unfold load_api_key. rewrite Hk. reflexivity.
  - intros He kf -> Hx. split.
    + intros s Hs. unfold load_api_key. rewrite Hx, Hs.
      destruct explicit_key as [k|]; simpl in He; [rewrite He|]; reflexivity.
    + intros e Hs. unfold load_api_key. rewrite Hx, Hs.
      destruct explicit_key as [k|]; simpl in He; [rewrite He|]; reflexivity.
  - intros He Hf. split.
    + intros v Hv Ht. unfold load_api_key. rewrite Hv, Ht.
      destruct explicit_key as [k|]; simpl in He; [rewrite He|];
        (destruct key_file as [kf|]; [rewrite (Hf kf eq_refl)|]); reflexivity.
    + apply load_api_key_missing; assumption.
Qed.

Lemma load_api_key_precedence_witness :
  load_api_key (tailor_world_env (Some (lit "sk-test"))) None None = Ok (lit "sk-test").
Proof.
  destruct (load_api_key_precedence (tailor_world_env (Some (lit "sk-test"))) None None)
    as [_ [_ H]].
  apply H; [reflexivity|intros kf Hkf; discriminate|reflexivity|reflexivity].
Defined.

(** ** The output file name *)

Lemma in_zseq (lo : Z) (n : nat) (x : Z) : In x (zseq lo n) <-> lo <= x < lo + Z.of_nat n.
Proof.
  revert lo; induction n as [|n IH]; intros lo; simpl.
  - lia.
  - rewrite IH. lia.
Qed.

Lemma forall_range (P : Z -> bool) (lo cnt : Z) :
  forallb P (zseq lo (Z.to_nat cnt)) = true ->
  forall n, lo <= n < lo + cnt -> P n = true.
Proof.
  intros Hall n Hn. rewrite forallb_forall in Hall.
  apply Hall, in_zseq. lia.
Qed.

Lemma dec2_fixed (n : Z) : 0 <= n <= 99 -> zpad 2 (dec n) = fixed_digits 2 n.
Proof.
  intros Hn. apply str_eqb_eq.
  apply (forall_range (fun n => str_eqb (zpad 2 (dec n)) (fixed_digits 2 n)) 0 100);
    [vm_compute; reflexivity | lia].
Qed.

Lemma dec4_fixed (n : Z) : 1000 <= n <= 9999 -> dec n = fixed_digits 4 n.
Proof.
  intros Hn. apply str_eqb_eq.
  apply (forall_range (fun n => str_eqb (dec n) (fixed_digits 4 n)) 1000 9000);
    [vm_compute; reflexivity | lia].
Qed.

Lemma doe_to_ymd_ok (doe : Z) : 0 <= doe < 146097 ->
  let '(_, m, d) := doe_to_ymd doe in 1 <= m <= 12 /\ 1 <= d <= 31.
Proof.
  intros Hdoe.
  pose (chk := fun doe => let '(_, m, d) := doe_to_ymd doe in
                (1 <=? m) && (m <=? 12) && (1 <=? d) && (d <=? 31)).
  assert (H : chk doe = true).
  { apply (forall_range chk 0 146097); [vm_compute; reflexivity | lia]. }
  unfold chk in H. destruct (doe_to_ymd doe) as [[y m] d].
  repeat rewrite andb_true_iff in H. rewrite !Z.leb_le in H. lia.
Qed.

Lemma utcnow_ok (t : Z) : datetime_ok (utcnow t).
Proof.
  unfold utcnow, civil_from_days.
  set (z := t / 86400 + 719468).
  assert (Hdoe : 0 <= z - z / 146097 * 146097 < 146097).
  { pose proof (Z.mod_pos_bound z 146097 ltac:(lia)).
    rewrite Z.mod_eq in H by lia. lia. }
  pose proof (doe_to_ymd_ok _ Hdoe) as Hymd.
  destruct (doe_to_ymd (z - z / 146097 * 146097)) as [[yoe m] d].
  pose proof (Z.mod_pos_bound t 86400 ltac:(lia)) as Hs.
  set (s := t mod 86400) in *.
  pose proof (Z.mod_pos_bound s 3600 ltac:(lia)) as Hs2.
  unfold datetime_ok; simpl.
  repeat split; try lia.
  - apply Z.div_pos; lia.
  - apply Z.lt_succ_r, Z.div_lt_upper_bound; lia.
  - apply Z.div_pos; lia.
  - apply Z.lt_succ_r, Z.div_lt_upper_bound; lia.
  - pose proof (Z.mod_pos_bound s 60 ltac:(lia)); lia.
  - pose proof (Z.mod_pos_bound s 60 ltac:(lia)); lia.
Qed.

(** C8: the file name is [CV_Customized_] followed by the current time as
    the fixed-width digits YYYYMMDD-HHMMSS and [.docx]. The time is the
    Europe/London wall-clock time when the time-zone data is available, and
    otherwise the naive UTC time [datetime.utcnow()], computed without
    failing. (Years 1000..9999, where [%Y] gives four digits.) *)
Theorem out_file_stamp (tzdb : tz_database) (t : Z) :
  (forall to_local u, tzdb (lit "Europe/London") = Some to_local ->
     datetime_ok (to_local u)) ->
  1000 <= dt_year (now_datetime tzdb t) <= 9999 ->
  now_datetime tzdb t =
    match tzdb (lit "Europe/London") with
    | Some to_local => to_local t
    | None => utcnow t
    end
  /\ (tzdb (lit "Europe/London") = None -> datetime_ok (now_datetime tzdb t))
  /\ out_file tzdb t =
       lit "CV_Customized_"
       ++ fixed_digits 4 (dt_year (now_datetime tzdb t))
       ++ fixed_digits 2 (dt_month (now_datetime tzdb t))
       ++ fixed_digits 2 (dt_day (now_datetime tzdb t))
       ++ lit "-"
       ++ fixed_digits 2 (dt_hour (now_datetime tzdb t))
       ++ fixed_digits 2 (dt_minute (now_datetime tzdb t))
       ++ fixed_digits 2 (dt_second (now_datetime tzdb t))
       ++ lit ".docx".
Proof.
  intros Htz Hy.
  assert (Hok : datetime_ok (now_datetime tzdb t)).
  { unfold now_datetime. destruct (tzdb (lit "Europe/London")) as [f|] eqn:E.
    - exact (Htz f t eq_refl).
    - apply utcnow_ok. }
  split; [reflexivity|]. split; [intros _; exact Hok|].
  unfold out_file, stamp.
  destruct Hok as (Hmo & Hd & Hh & Hmi & Hs).
  rewrite (dec4_fixed _ Hy), !dec2_fixed by lia.
  reflexivity.
Qed.

Lemma out_file_stamp_witness :
  out_file (fun _ => None) 1700000000 = lit "CV_Customized_20231114-221320.docx"
  /\ now_datetime (fun _ => None) 1700000000 = utcnow 1700000000.
Proof.
  destruct (out_file_stamp (fun _ => None) 1700000000) as [H1 [_ H3]].
  - intros f u Hf. discriminate.
  - vm_compute. split; discriminate.
  - split; [rewrite H3; vm_compute; reflexivity | exact H1].
Defined.
